(** * Renewal-process spike train generation (elephant/spike_train_generation.py)

    A shallow embedding of [_homogeneous_process] and of its two public
    entry points, [homogeneous_poisson_process] and
    [homogeneous_gamma_process].

    Numbers.  Python floats are modelled by exact rationals ([Q]); rounding
    of the floating-point unit is outside the model, and so are [inf] and
    division by zero (rates are taken non-zero).  The statements are about
    the values the program computes, in the order it computes them: the
    running time of the loop is a sum taken from the left, as the loop
    takes it, and bounds are compared as the program compares them.  The integer [n] and the
    sample count are integers ([Z]); the one [nan] the code can meet, the
    square root of a negative [n], is modelled by [None].

    Quantities.  A [Quantity] pairs a magnitude with a unit; a unit is its
    positive conversion factor to the SI base unit of its dimension.  The
    dimension checks of the [quantities] package are outside the model:
    times and rates are taken well-dimensioned, as the docstrings require.

    Randomness.  [np.random] reads and updates a hidden generator state.
    The interval generator is therefore a function of an explicit state [G],
    handing back the drawn values together with the next state.

    Loops.  The [while] loop of the extension takes fuel, one unit a turn;
    a call that is still in the loop when the fuel is spent ends in
    [OutOfFuel].  A call that ends in [OutOfFuel] for every fuel is a call
    that does not terminate.

    Exceptions.  A call can raise [AssertionError] (line 28), [IndexError]
    (lines 37 and 40, on an empty array) and [ValueError]: the
    [neo.SpikeTrain] constructor of line 50 refuses a window whose
    [t_stop] is before its [t_start] and a time outside the window. *)

From Stdlib Require Import ZArith QArith Qround List Bool Lia Lra Lqa.
From Stdlib Require Import Sorting.Sorted.
From Stdlib Require Import Reals R_sqrt Zfloor.
Import ListNotations.

Local Open Scope Q_scope.

(** Linear arithmetic over the rationals and over the reals. *)
Ltac qlra := Lqa.lra.
Ltac rlra := Lra.lra.
Ltac rnra := Lra.nra.

(** Closed goals: sortedness and bounds on the entries of a given list. *)
Ltac by_computation :=
  vm_compute;
  repeat first [ discriminate | reflexivity | lia
               | match goal with |- _ /\ _ => split end
               | constructor ].

(** ** Units and quantities *)

Record Unit := { unum : positive; uden : positive }.

Definition factor (u : Unit) : Q := Zpos (unum u) # uden u.

Definition unit_mul (u v : Unit) : Unit :=
  {| unum := unum u * unum v; uden := uden u * uden v |}.

Definition unit_inv (u : Unit) : Unit :=
  {| unum := uden u; uden := unum u |}.

Definition second : Unit := {| unum := 1; uden := 1 |}.
Definition ms : Unit := {| unum := 1; uden := 1000 |}.
Definition Hz : Unit := {| unum := 1; uden := 1 |}.

Record Quantity := { magnitude : Q; units : Unit }.

(** [q.rescale(u)] *)
Definition rescale_to (q : Quantity) (u : Unit) : Quantity :=
  {| magnitude := magnitude q * factor (units q) / factor u; units := u |}.

(** [a - b]: the result carries the units of the left operand. *)
Definition Qty_sub (a b : Quantity) : Quantity :=
  {| magnitude := magnitude a - magnitude (rescale_to b (units a));
     units := units a |}.

(** [a * b] *)
Definition Qty_mul (a b : Quantity) : Quantity :=
  {| magnitude := magnitude a * magnitude b;
     units := unit_mul (units a) (units b) |}.

(** [1 / q] *)
Definition Qty_inv (q : Quantity) : Quantity :=
  {| magnitude := / magnitude q; units := unit_inv (units q) |}.

(** [q / a] for a plain number [a] *)
Definition Qty_div_scalar (q : Quantity) (a : Q) : Quantity :=
  {| magnitude := magnitude q / a; units := units q |}.

(** [q.simplified]: the magnitude in SI base units. *)
Definition simplified (q : Quantity) : Q := magnitude q * factor (units q).

(** Comparison of two quantities of one dimension. *)
Definition Qty_le (a b : Quantity) : Prop := simplified a <= simplified b.
Definition Qty_lt (a b : Quantity) : Prop := simplified a < simplified b.

(** Python's [int(x)]: truncation toward zero. *)
Definition int (x : Q) : Z := Z.quot (Qnum x) (Zpos (Qden x)).

Definition Qlt_bool (x y : Q) : bool := negb (Qle_bool y x).

(** ** Buffer sizing (lines 24-28) *)

(** The least integer whose square is at least [m], for [0 <= m]. *)
Definition ceil_sqrt (m : Z) : Z :=
  let r := Z.sqrt m in if (r * r =? m)%Z then r else (r + 1)%Z.

(** [np.ceil(n + 3 * np.sqrt(n))] for an integer [n]; [None] stands for
    [nan], which is what [np.sqrt] gives below zero.  As [n] is an integer,
    the ceiling is [n + ceil (sqrt (9 * n))] (see [np_ceil_is_ceiling]). *)
Definition np_ceil_n_3sqrt (n : Z) : option Z :=
  if (n <? 0)%Z then None else Some (n + ceil_sqrt (9 * n))%Z.

(** Lines 25-27.  [nan < 100] is false, so a [nan] stays. *)
Definition sample_count (n : Z) : option Z :=
  match np_ceil_n_3sqrt n with
  | Some number =>
      if (number <? 100)%Z then Some (Z.min (5 + 2 * n) 100) else Some number
  | None => None
  end.

(** The sizing rule in the words of the specification, for a real [n]:
    [size = ceil(n + 3*sqrt(n))], raised to [min(5 + ceil(2n), 100)] when
    below 100. *)
Definition spec_size (n : R) : Z :=
  let size := Zceil (n + 3 * sqrt n)%R in
  if (size <? 100)%Z then Z.min (5 + Zceil (2 * n)%R) 100 else size.

(** ** Outcomes of a call *)

Inductive exn := AssertionError | IndexError | ValueError.

Inductive outcome (X : Type) :=
| Returns (x : X)
| Raises (e : exn)
| OutOfFuel.
Arguments Returns {X} x.
Arguments Raises {X} e.
Arguments OutOfFuel {X}.

(** A computation that reads and updates the generator state. *)
Definition M (G X : Type) : Type := G -> outcome (X * G).

Definition ret {G X} (x : X) : M G X := fun g => Returns (x, g).

Definition raise {G X} (e : exn) : M G X := fun _ => Raises e.

Definition bind {G X Y} (m : M G X) (k : X -> M G Y) : M G Y :=
  fun g =>
    match m g with
    | Returns (x, g') => k x g'
    | Raises e => Raises e
    | OutOfFuel => OutOfFuel
    end.

Notation "x <- m ;; k" := (bind m (fun x => k))
  (at level 100, m at next level, right associativity).

(** ** Array primitives *)

(** [np.cumsum] *)
Fixpoint cumsum_from (acc : Q) (l : list Q) : list Q :=
  match l with
  | [] => []
  | x :: r => (acc + x) :: cumsum_from (acc + x) r
  end.

Definition cumsum (l : list Q) : list Q :=
  match l with
  | [] => []
  | x :: r => x :: cumsum_from x r
  end.

(** [a.searchsorted(v)] (side left): bisection, as numpy does it.  On a
    sorted array it finds the insertion point [insertion_point] below
    (lemma [searchsorted_sorted]). *)
Fixpoint bisect_left (fuel : nat) (a : list Q) (v : Q) (lo hi : nat) : nat :=
  match fuel with
  | O => lo
  | S f =>
      if (lo <? hi)%nat then
        let mid := (lo + (hi - lo) / 2)%nat in
        if Qlt_bool (nth mid a 0) v
        then bisect_left f a v (mid + 1) hi
        else bisect_left f a v lo mid
      else lo
  end.

Definition searchsorted (a : list Q) (v : Q) : nat :=
  bisect_left (length a) a v 0 (length a).

(** The insertion point by a scan from the left: the index of the first
    entry that is not below [v]. *)
Fixpoint insertion_point (a : list Q) (v : Q) : nat :=
  match a with
  | [] => O
  | x :: r => if Qlt_bool x v then S (insertion_point r v) else O
  end.

(** [a[-1]] *)
Definition index_last {G} (a : list Q) : M G Q :=
  match rev a with
  | [] => raise IndexError
  | x :: _ => ret x
  end.

(** [a[0]] *)
Definition index_first {G} (a : list Q) : M G Q :=
  match a with
  | [] => raise IndexError
  | x :: _ => ret x
  end.

(** ** Output representations *)

(** [neo.SpikeTrain], as the container of what line 50 hands it.  The
    record holds what the constructor is given; the check the constructor
    makes before it hands the train back is [check_time_in_range] below. *)
Record SpikeTrain := {
  times : list Q;
  train_units : Unit;
  train_t_start : Quantity;
  train_t_stop : Quantity
}.

Inductive result :=
| Array (a : list Q)
| Train (t : SpikeTrain).

(** The underlying numeric sequence of a result. *)
Definition values (r : result) : list Q :=
  match r with
  | Array a => a
  | Train t => times t
  end.

(** ** Predicates on sequences *)

Definition nonneg (l : list Q) : Prop := Forall (fun x => 0 <= x) l.

(** Non-decreasing. *)
Definition sorted (l : list Q) : Prop := StronglySorted Qle l.

(** ** The sampler *)

Section Sampler.

(** The hidden state of the random source, the type of the generator's
    positional arguments, and the generator: [interval_generator args k g]
    is the call [interval_generator( *args, size=k)] made in state [g]. *)
Variables G A : Type.
Variable interval_generator : A -> nat -> G -> list Q * G.

Definition draw (args : A) (size : nat) : M G (list Q) :=
  fun g => Returns (interval_generator args size g).

Section Call.

Variable args : A.
Variables mean_rate t_start t_stop : Quantity.

(** Lines 21-22: [(x / mean_rate.units).rescale(t_stop.units)] *)
Definition rescale (x : list Q) : list Q :=
  map (fun v => v * factor (unit_inv (units mean_rate))
                / factor (units t_stop)) x.

(** Line 24: [((t_stop - t_start) * mean_rate).simplified], and the
    integer [n] made of it. *)
Definition rate_window_product : Q :=
  simplified (Qty_mul (Qty_sub t_stop t_start) mean_rate).

Definition expected_count : Z := int rate_window_product.

(** Line 28: [assert number > 4] *)
Definition assert_number (number : option Z) : M G Z :=
  match number with
  | Some k => if (4 <? k)%Z then ret k else raise AssertionError
  | None => raise AssertionError
  end.

(** Lines 29-31: the candidate event times, in the units of [t_stop]. *)
Definition candidates (raw : list Q) : list Q :=
  map (fun v => v + magnitude (rescale_to t_start (units t_stop)))
      (cumsum (rescale raw)).

(** [rescale(interval_generator( *args, size=1))[0]] *)
Definition draw_one : M G Q :=
  x <- draw args 1 ;; index_first (rescale x).

(** Lines 38-40.  Each unit of fuel pays for one turn of the loop. *)
Fixpoint extend (fuel : nat) (t_last : Q) (extra_spikes : list Q)
  : M G (list Q) :=
  if Qlt_bool t_last (magnitude t_stop) then
    match fuel with
    | O => fun _ => OutOfFuel
    | S f =>
        x <- draw_one ;;
        extend f (t_last + x) (extra_spikes ++ [t_last])
    end
  else ret extra_spikes.

(** A run of the loop of lines 38-40: [extension t g extra t_over g']
    holds when the loop, started with running time [t] in state [g],
    appends [extra] and leaves with running time [t_over] in state [g']. *)
Inductive extension : Q -> G -> list Q -> Q -> G -> Prop :=
| extension_stop t g :
    magnitude t_stop <= t -> extension t g [] t g
| extension_step t g x g1 extra t_over g' :
    t < magnitude t_stop ->
    draw_one g = Returns (x, g1) ->
    extension (t + x) g1 extra t_over g' ->
    extension t g (t :: extra) t_over g'.

(** Lines 33-45 *)
Definition fit (fuel : nat) (spikes : list Q) : M G (list Q) :=
  let i := searchsorted spikes (magnitude t_stop) in
  if (i =? length spikes)%nat then
    last <- index_last spikes ;;
    x <- draw_one ;;
    extra_spikes <- extend fuel (last + x) [] ;;
    ret (spikes ++ extra_spikes)
  else ret (firstn i spikes).

(** The check of the [neo.SpikeTrain] constructor (neo's
    [_check_time_in_range], a library the module imports): with the
    bounds in the units of the train, it refuses a [t_stop] that is
    before [t_start], and a train whose smallest time is below [t_start]
    or whose largest time is above [t_stop].  Both bounds are allowed. *)
Definition check_time_in_range (spikes : list Q) : bool :=
  let start := magnitude (rescale_to t_start (units t_stop)) in
  negb (Qlt_bool (magnitude t_stop) start) &&
  forallb (fun t => Qle_bool start t && Qle_bool t (magnitude t_stop)) spikes.

(** Lines 47-51.  [spikes.magnitude] always succeeds; the constructor of
    line 50 raises [ValueError] when its check fails. *)
Definition package (as_array : bool) (spikes : list Q) : M G result :=
  if as_array then ret (Array spikes)
  else if check_time_in_range spikes
       then ret (Train {| times := spikes;
                          train_units := units t_stop;
                          train_t_start := t_start;
                          train_t_stop := t_stop |})
       else raise ValueError.

Definition _homogeneous_process (fuel : nat) (as_array : bool)
  : M G result :=
  number <- assert_number (sample_count expected_count) ;;
  raw <- draw args (Z.to_nat number) ;;
  spikes <- fit fuel (candidates raw) ;;
  package as_array spikes.

End Call.

End Sampler.

Arguments draw {G A}.
Arguments draw_one {G A}.
Arguments extend {G A}.
Arguments fit {G A}.
Arguments extension {G A}.
Arguments assert_number {G}.
Arguments package {G}.
Arguments _homogeneous_process {G A}.

(** ** The public entry points *)

Section Adapters.

Variable G : Type.

(** [np.random.exponential(scale, size)] *)
Variable exponential : Quantity -> nat -> G -> list Q * G.

(** [np.random.gamma(shape, scale, size)] *)
Variable gamma : Q * Quantity -> nat -> G -> list Q * G.

(** Lines 83-84 *)
Definition homogeneous_poisson_process
  (fuel : nat) (rate t_start t_stop : Quantity) (as_array : bool)
  : M G result :=
  let mean_interval := Qty_inv rate in
  _homogeneous_process exponential mean_interval rate t_start t_stop
                       fuel as_array.

(** Lines 117-119 *)
Definition homogeneous_gamma_process
  (fuel : nat) (a : Q) (b t_start t_stop : Quantity) (as_array : bool)
  : M G result :=
  let rate := Qty_div_scalar b a in
  let '(k, theta) := (a, Qty_inv b) in
  _homogeneous_process gamma (k, theta) rate t_start t_stop fuel as_array.

End Adapters.

Arguments homogeneous_poisson_process {G}.
Arguments homogeneous_gamma_process {G}.

(** ** What a generator may be asked to guarantee *)

Definition gen_nonneg {G A} (gen : A -> nat -> G -> list Q * G) : Prop :=
  forall a k g, nonneg (fst (gen a k g)).

Definition gen_sized {G A} (gen : A -> nat -> G -> list Q * G) : Prop :=
  forall a k g, length (fst (gen a k g)) = k.

(** ** Reading the result of a call *)

(** An event time [t], as a quantity in the units of [t_stop]. *)
Definition event (t_stop : Quantity) (t : Q) : Quantity :=
  {| magnitude := t; units := units t_stop |}.

(** Every event time lies in the half-open window from [t_start] to
    [t_stop]. *)
Definition in_window (t_start t_stop : Quantity) (l : list Q) : Prop :=
  Forall (fun t => Qty_le t_start (event t_stop t) /\
                   Qty_lt (event t_stop t) t_stop) l.

(** The outcome of a call with the packaging taken off. *)
Definition underlying {G} (o : outcome (result * G)) : outcome (list Q * G) :=
  match o with
  | Returns (r, g) => Returns (values r, g)
  | Raises e => Raises e
  | OutOfFuel => OutOfFuel
  end.

(** Two calls, each on its own random source, end alike: the same value
    and related final states, or the same exception. *)
Definition same_outcome {G1 G2 X} (R : G1 -> G2 -> Prop)
  (o1 : outcome (X * G1)) (o2 : outcome (X * G2)) : Prop :=
  match o1, o2 with
  | Returns (x1, g1), Returns (x2, g2) => x1 = x2 /\ R g1 g2
  | Raises e1, Raises e2 => e1 = e2
  | OutOfFuel, OutOfFuel => True
  | _, _ => False
  end.

(** ** Concrete random sources, for running the model *)

(** A source that hands out the values [f 0], [f 1], ... in turn; the
    state is the number of values handed out so far. *)
Definition stream_source {A} (f : nat -> Q) : A -> nat -> nat -> list Q * nat :=
  fun _ k g => (map f (seq g k), (g + k)%nat).

(** Zero for the first [k] draws, one ever after. *)
Definition late_ones (k : nat) : nat -> Q :=
  fun i => if (i <? k)%nat then 0 else 1.

Definition quantity (m : Q) (u : Unit) : Quantity :=
  {| magnitude := m; units := u |}.

(** ** Reading the draws of a call *)

Section Draws.

Variables G A : Type.
Variable interval_generator : A -> nat -> G -> list Q * G.
Variable args : A.
Variables mean_rate t_stop : Quantity.

(** [single_draws g xs g']: the draws of one interval each (lines 37 and
    40), made one after the other from state [g], hand out the rescaled
    intervals [xs] and leave the generator in state [g']. *)
Inductive single_draws : G -> list Q -> G -> Prop :=
| single_draws_nil g : single_draws g [] g
| single_draws_cons g x g1 xs g' :
    draw_one interval_generator args mean_rate t_stop g = Returns (x, g1) ->
    single_draws g1 xs g' ->
    single_draws g (x :: xs) g'.

End Draws.

Arguments single_draws {G A}.

(** The running time of lines 37 and 40 after the intervals [xs] have
    been added to [t] one after the other, in the order the loop adds
    them. *)
Definition running (t : Q) (xs : list Q) : Q := fold_left Qplus xs t.

(** A generator that hands back nothing, whatever the size asked. *)
Definition empty_source {A} : A -> nat -> unit -> list Q * unit :=
  fun _ _ g => ([], g).

(** * Properties *)

(** ** Order on rationals, units *)

Lemma Qlt_bool_iff (x y : Q) : Qlt_bool x y = true <-> x < y.
Proof.
  unfold Qlt_bool. rewrite negb_true_iff. split; intros H.
  - apply Qnot_le_lt. intros Hle. apply Qle_bool_iff in Hle. congruence.
  - destruct (Qle_bool y x) eqn:E; [|reflexivity].
    apply Qle_bool_iff in E. exfalso. exact (Qlt_not_le _ _ H E).
Qed.

Lemma Qlt_bool_false_iff (x y : Q) : Qlt_bool x y = false <-> y <= x.
Proof.
  unfold Qlt_bool. rewrite negb_false_iff. apply Qle_bool_iff.
Qed.

Lemma factor_pos (u : Unit) : 0 < factor u.
Proof. unfold factor, Qlt. simpl. lia. Qed.

Lemma Qdiv_mult_cancel (x d : Q) : 0 < d -> x / d * d == x.
Proof. intros Hd. field. intros E. rewrite E in Hd. discriminate. Qed.

Lemma Qdiv_nonneg (x d : Q) : 0 <= x -> 0 < d -> 0 <= x / d.
Proof.
  intros Hx Hd. unfold Qdiv. apply Qmult_le_0_compat; [assumption|].
  apply Qlt_le_weak, Qinv_lt_0_compat, Hd.
Qed.

(** ** Buffer sizing *)

Lemma ceil_sqrt_spec (m : Z) :
  (0 <= m)%Z ->
  (0 <= ceil_sqrt m /\ m <= ceil_sqrt m * ceil_sqrt m /\
   (0 < ceil_sqrt m -> (ceil_sqrt m - 1) * (ceil_sqrt m - 1) < m))%Z.
Proof.
  intros Hm. unfold ceil_sqrt.
  pose proof (Z.sqrt_spec m Hm) as [Hlo Hhi].
  pose proof (Z.sqrt_nonneg m) as Hr.
  destruct (Z.eqb_spec (Z.sqrt m * Z.sqrt m) m) as [E|E]; nia.
Qed.

(** [ceil_sqrt] is the ceiling of the real square root. *)
Lemma ceil_sqrt_is_ceiling (m : Z) :
  (0 <= m)%Z -> Zceil (sqrt (IZR m)) = ceil_sqrt m.
Proof.
  intros Hm. apply Zceil_eq.
  destruct (ceil_sqrt_spec m Hm) as (Hc & Hup & Hdown).
  set (c := ceil_sqrt m) in *.
  assert (Hm' : (0 <= IZR m)%R) by (apply IZR_le; exact Hm).
  assert (Hc' : (0 <= IZR c)%R) by (apply IZR_le; exact Hc).
  split.
  - destruct (Z.eq_dec c 0) as [E|E].
    + rewrite E. pose proof (sqrt_pos (IZR m)). simpl. rlra.
    + assert (Hlt : ((c - 1) * (c - 1) < m)%Z) by (apply Hdown; lia).
      apply IZR_lt in Hlt. rewrite mult_IZR, minus_IZR in Hlt.
      assert (H1 : (0 <= IZR c - 1)%R).
      { rewrite <- minus_IZR. apply IZR_le. lia. }
      rewrite <- (sqrt_square (IZR c - 1) H1).
      apply sqrt_lt_1; [rnra | exact Hm' | exact Hlt].
  - apply IZR_le in Hup. rewrite mult_IZR in Hup.
    rewrite <- (sqrt_square (IZR c) Hc').
    apply sqrt_le_1; [exact Hm' | rnra | exact Hup].
Qed.

(** The integer computation of line 25 is the ceiling of the real-number
    expression [n + 3 * sqrt n]. *)
Lemma np_ceil_is_ceiling (n : Z) :
  (0 <= n)%Z ->
  np_ceil_n_3sqrt n = Some (Zceil (IZR n + 3 * sqrt (IZR n))%R).
Proof.
  intros Hn. unfold np_ceil_n_3sqrt.
  destruct (Z.ltb_spec n 0) as [H|_]; [lia|]. f_equal.
  assert (E : (3 * sqrt (IZR n) = sqrt (IZR (9 * n)))%R).
  { rewrite mult_IZR, sqrt_mult; [| rlra | apply IZR_le; exact Hn].
    replace 9%R with (3 * 3)%R by rlra.
    rewrite sqrt_square by rlra. reflexivity. }
  rewrite E, Rplus_comm, Zceil_addz, ceil_sqrt_is_ceiling by lia. lia.
Qed.

Lemma Zceil_IZR (z : Z) : Zceil (IZR z) = z.
Proof. apply Zceil_eq. rlra. Qed.

Lemma sample_count_spec_size (n : Z) :
  (0 <= n)%Z -> sample_count n = Some (spec_size (IZR n)).
Proof.
  intros Hn. unfold sample_count, spec_size.
  rewrite (np_ceil_is_ceiling n Hn).
  replace (2 * IZR n)%R with (IZR (2 * n)) by (rewrite mult_IZR; reflexivity).
  rewrite Zceil_IZR.
  destruct (_ <? 100)%Z; reflexivity.
Qed.

Lemma sample_count_negative (n : Z) : (n < 0)%Z -> sample_count n = None.
Proof.
  intros Hn. unfold sample_count, np_ceil_n_3sqrt.
  destruct (Z.ltb_spec n 0); [reflexivity | lia].
Qed.

Lemma sample_count_gt_4 (n : Z) :
  (0 <= n)%Z -> exists k, sample_count n = Some k /\ (4 < k)%Z.
Proof.
  intros Hn. unfold sample_count, np_ceil_n_3sqrt.
  destruct (Z.ltb_spec n 0) as [H|_]; [lia|].
  destruct (Z.ltb_spec (n + ceil_sqrt (9 * n)) 100) as [H|H];
    eexists; (split; [reflexivity | lia]).
Qed.

(** ** Cumulative sums and the insertion point *)

Lemma cumsum_from_sorted (l : list Q) :
  forall acc, nonneg l ->
    Forall (fun y => acc <= y) (cumsum_from acc l) /\
    sorted (cumsum_from acc l).
Proof.
  induction l as [|x r IH]; intros acc Hl; simpl.
  - split; constructor.
  - inversion Hl as [|? ? Hx Hr]; subst.
    destruct (IH (acc + x) Hr) as [Hge Hs].
    split.
    + constructor; [qlra|].
      eapply Forall_impl; [|exact Hge]. simpl. intros y Hy. qlra.
    + constructor; assumption.
Qed.

Lemma cumsum_sorted (l : list Q) :
  nonneg l -> nonneg (cumsum l) /\ sorted (cumsum l).
Proof.
  destruct l as [|x r]; intros Hl; simpl.
  - split; constructor.
  - inversion Hl as [|? ? Hx Hr]; subst.
    destruct (cumsum_from_sorted r x Hr) as [Hge Hs].
    split.
    + constructor; [assumption|].
      eapply Forall_impl; [|exact Hge]. simpl. intros y Hy. qlra.
    + constructor; assumption.
Qed.

Lemma cumsum_from_length (l : list Q) :
  forall acc, length (cumsum_from acc l) = length l.
Proof. induction l; intros; simpl; [reflexivity | f_equal; auto]. Qed.

Lemma cumsum_length (l : list Q) : length (cumsum l) = length l.
Proof. destruct l; simpl; [reflexivity | f_equal; apply cumsum_from_length]. Qed.

Lemma sorted_map_add (c : Q) (l : list Q) :
  sorted l -> sorted (map (fun v => v + c) l).
Proof.
  induction 1 as [|x r Hs IH Hx]; simpl; constructor; [assumption|].
  apply Forall_map. eapply Forall_impl; [|exact Hx]. simpl. intros y Hy. qlra.
Qed.

Lemma sorted_app (l1 l2 : list Q) :
  sorted l1 -> sorted l2 ->
  (forall x y, In x l1 -> In y l2 -> x <= y) ->
  sorted (l1 ++ l2).
Proof.
  intros H1 H2 H. induction H1 as [|x r Hs IH Hx]; simpl; [assumption|].
  constructor.
  - apply IH. intros a b Ha Hb. apply H; [right|]; assumption.
  - apply Forall_app. split; [assumption|].
    apply Forall_forall. intros y Hy. apply H; [left; reflexivity | assumption].
Qed.

Lemma In_firstn (k : nat) (l : list Q) (x : Q) :
  In x (firstn k l) -> In x l.
Proof.
  revert l. induction k as [|k IH]; intros [|y r]; simpl; try tauto.
  intros [H|H]; [left; assumption | right; apply IH, H].
Qed.

Lemma sorted_firstn (k : nat) (l : list Q) : sorted l -> sorted (firstn k l).
Proof.
  intros H. revert k. induction H as [|x r Hs IH Hx]; intros [|k]; simpl;
    try constructor.
  - apply IH.
  - apply Forall_forall. intros y Hy. apply In_firstn in Hy.
    rewrite Forall_forall in Hx. auto.
Qed.

Lemma insertion_point_le_length (a : list Q) (v : Q) :
  (insertion_point a v <= length a)%nat.
Proof. induction a; simpl; [|destruct (Qlt_bool _ _); simpl]; lia. Qed.

Lemma insertion_point_below (a : list Q) (v : Q) :
  Forall (fun x => x < v) (firstn (insertion_point a v) a).
Proof.
  induction a as [|x r IH]; simpl; [constructor|].
  destruct (Qlt_bool x v) eqn:E; simpl; constructor; [|assumption].
  apply Qlt_bool_iff, E.
Qed.

Lemma insertion_point_nth_below (a : list Q) (v : Q) (i : nat) :
  (i < insertion_point a v)%nat -> nth i a 0 < v.
Proof.
  revert i. induction a as [|x r IH]; simpl; intros i Hi; [lia|].
  destruct (Qlt_bool x v) eqn:E; [|lia].
  destruct i as [|i]; [apply Qlt_bool_iff, E | apply IH; lia].
Qed.

Lemma insertion_point_nth_above (a : list Q) (v : Q) (i : nat) :
  sorted a -> (insertion_point a v <= i < length a)%nat -> v <= nth i a 0.
Proof.
  intros Hs. revert i. induction Hs as [|x r Hs IH Hx]; simpl; intros i Hi;
    [lia|].
  destruct (Qlt_bool x v) eqn:E.
  - destruct i as [|i]; [lia | apply IH; lia].
  - apply Qlt_bool_false_iff in E. destruct i as [|i]; [assumption|].
    rewrite Forall_forall in Hx.
    assert (Hin : In (nth i r 0) r) by (apply nth_In; lia).
    specialize (Hx _ Hin). simpl in Hx. qlra.
Qed.

Lemma insertion_point_all_below (a : list Q) (v : Q) :
  insertion_point a v = length a <-> Forall (fun x => x < v) a.
Proof.
  split.
  - intros E. pose proof (insertion_point_below a v) as H.
    rewrite E, firstn_all in H. exact H.
  - induction 1 as [|x r Hx Hr IH]; simpl; [reflexivity|].
    apply Qlt_bool_iff in Hx. rewrite Hx, IH. reflexivity.
Qed.

(** The bisection stays between its bounds, sorted input or not. *)
Lemma bisect_left_bounds (fuel : nat) (a : list Q) (v : Q) :
  forall lo hi, (lo <= hi)%nat ->
    (lo <= bisect_left fuel a v lo hi <= hi)%nat.
Proof.
  induction fuel as [|f IH]; intros lo hi Hle; cbn [bisect_left]; [lia|].
  destruct (Nat.ltb_spec lo hi) as [Hlt|Hge]; [|lia].
  assert (Hd : ((hi - lo) / 2 < hi - lo)%nat)
    by (apply Nat.div_lt; lia).
  destruct (Qlt_bool _ _).
  - specialize (IH (lo + (hi - lo) / 2 + 1)%nat hi). lia.
  - specialize (IH lo (lo + (hi - lo) / 2)%nat). lia.
Qed.

(** On a sorted array the bisection lands on the insertion point. *)
Lemma bisect_left_sorted (fuel : nat) (a : list Q) (v : Q) :
  sorted a ->
  forall lo hi,
    (lo <= insertion_point a v <= hi)%nat -> (hi <= length a)%nat ->
    (hi - lo <= fuel)%nat ->
    bisect_left fuel a v lo hi = insertion_point a v.
Proof.
  intros Hs. induction fuel as [|f IH]; intros lo hi Hip Hhi Hf;
    cbn [bisect_left]; [lia|].
  destruct (Nat.ltb_spec lo hi) as [Hlt|Hge]; [|lia].
  assert (Hd : ((hi - lo) / 2 < hi - lo)%nat)
    by (apply Nat.div_lt; lia).
  assert (Hd2 : (2 * ((hi - lo) / 2) <= hi - lo)%nat)
    by (apply Nat.Div0.mul_div_le).
  set (mid := (lo + (hi - lo) / 2)%nat) in *.
  destruct (Qlt_bool (nth mid a 0) v) eqn:E.
  - apply Qlt_bool_iff in E.
    assert (mid < insertion_point a v)%nat.
    { destruct (Nat.lt_ge_cases mid (insertion_point a v)) as [H|H];
        [assumption|].
      pose proof (insertion_point_nth_above a v mid Hs) as Hab.
      assert (v <= nth mid a 0) by (apply Hab; lia). qlra. }
    apply IH; lia.
  - apply Qlt_bool_false_iff in E.
    assert (insertion_point a v <= mid)%nat.
    { destruct (Nat.lt_ge_cases mid (insertion_point a v)) as [H|H];
        [|assumption].
      pose proof (insertion_point_nth_below a v mid H). qlra. }
    apply IH; lia.
Qed.

Lemma searchsorted_sorted (a : list Q) (v : Q) :
  sorted a -> searchsorted a v = insertion_point a v.
Proof.
  intros Hs. unfold searchsorted. apply bisect_left_sorted; try assumption;
    pose proof (insertion_point_le_length a v); lia.
Qed.

(** ** The extension loop *)

Section Loop.

Variables G A : Type.
Variable gen : A -> nat -> G -> list Q * G.
Variable args : A.
Variables mean_rate t_start t_stop : Quantity.

Local Abbreviation stop := (magnitude t_stop).
Local Abbreviation one := (draw_one gen args mean_rate t_stop).
Local Abbreviation loop := (extend gen args mean_rate t_stop).
Local Abbreviation run := (extension gen args mean_rate t_stop).

Lemma extend_extension (fuel : nat) :
  forall t acc g res g',
    loop fuel t acc g = Returns (res, g') ->
    exists extra t_over,
      res = acc ++ extra /\ run t g extra t_over g'.
Proof.
  induction fuel as [|f IH]; intros t acc g res g' H;
    cbn [extend] in H;
    destruct (Qlt_bool t (magnitude t_stop)) eqn:E.
  - discriminate.
  - apply Qlt_bool_false_iff in E. inversion H; subst.
    exists [], t. rewrite app_nil_r. split; [reflexivity|].
    constructor. exact E.
  - apply Qlt_bool_iff in E. unfold bind in H.
    destruct (draw_one gen args mean_rate t_stop g) as [[x g1]| |] eqn:D;
      try discriminate.
    destruct (IH _ _ _ _ _ H) as (extra & t_over & Hres & Hext).
    exists (t :: extra), t_over. split.
    + rewrite Hres, <- app_assoc. reflexivity.
    + econstructor; eassumption.
  - apply Qlt_bool_false_iff in E. inversion H; subst.
    exists [], t. rewrite app_nil_r. split; [reflexivity|].
    constructor. exact E.
Qed.

Lemma extension_extend t g extra t_over g' :
  run t g extra t_over g' ->
  forall fuel acc, (length extra <= fuel)%nat ->
    loop fuel t acc g = Returns (acc ++ extra, g').
Proof.
  induction 1 as [t g Hge | t g x g1 extra t_over g' Hlt Hd Hext IH];
    intros fuel acc Hf.
  - apply Qlt_bool_false_iff in Hge.
    destruct fuel; cbn [extend]; rewrite Hge, app_nil_r;
      reflexivity.
  - apply Qlt_bool_iff in Hlt. simpl in Hf.
    destruct fuel as [|f]; [lia|]. cbn [extend].
    rewrite Hlt. unfold bind. rewrite Hd.
    rewrite IH by lia. rewrite <- app_assoc. reflexivity.
Qed.

(** Nothing at or past [t_stop] is appended, and the loop leaves with a
    running time at or past [t_stop], which is not in the list. *)
Lemma extension_below t g extra t_over g' :
  run t g extra t_over g' ->
  Forall (fun p => p < stop) extra /\ stop <= t_over /\ ~ In t_over extra.
Proof.
  induction 1 as [t g Hge | t g x g1 extra t_over g' Hlt Hd Hext IH].
  - repeat split; [constructor | assumption | intros []].
  - destruct IH as (Hall & Hover & Hnin).
    repeat split; [constructor; assumption | assumption |].
    intros [E|Hin]; [subst; qlra | contradiction].
Qed.

Lemma draw_one_nonneg g x g1 :
  gen_nonneg gen -> one g = Returns (x, g1) -> 0 <= x.
Proof.
  intros Hg. unfold draw_one, bind, draw, rescale.
  specialize (Hg args 1%nat g).
  destruct (gen args 1%nat g) as [l g2]. simpl in *.
  destruct l as [|y r]; simpl; [discriminate|].
  intros H. inversion H; subst. inversion Hg; subst.
  apply Qdiv_nonneg; [|apply factor_pos].
  apply Qmult_le_0_compat; [assumption | apply Qlt_le_weak, factor_pos].
Qed.

(** With non-negative intervals the appended times do not decrease. *)
Lemma extension_sorted t g extra t_over g' :
  gen_nonneg gen ->
  run t g extra t_over g' ->
  sorted extra /\ Forall (fun p => t <= p) extra.
Proof.
  intros Hg.
  induction 1 as [t g Hge | t g x g1 extra t_over g' Hlt Hd Hext IH].
  - split; constructor.
  - destruct IH as (Hs & Hall).
    pose proof (draw_one_nonneg _ _ _ Hg Hd) as Hx.
    assert (Hall' : Forall (fun p => t <= p) extra).
    { eapply Forall_impl; [|exact Hall]. simpl. intros p Hp. qlra. }
    split; constructor; try assumption. qlra.
Qed.

End Loop.

(** ** The body of the sampler *)

Section Body.

Variables G A : Type.
Variable gen : A -> nat -> G -> list Q * G.
Variable args : A.
Variables mean_rate t_start t_stop : Quantity.

Local Abbreviation stop := (magnitude t_stop).
Local Abbreviation start := (magnitude (rescale_to t_start (units t_stop))).
Local Abbreviation one := (draw_one gen args mean_rate t_stop).

Lemma rescale_length (x : list Q) :
  length (rescale mean_rate t_stop x) = length x.
Proof. apply length_map. Qed.

Lemma rescale_nonneg (x : list Q) :
  nonneg x -> nonneg (rescale mean_rate t_stop x).
Proof.
  intros H. apply Forall_map. eapply Forall_impl; [|exact H].
  simpl. intros v Hv. apply Qdiv_nonneg; [|apply factor_pos].
  apply Qmult_le_0_compat; [assumption | apply Qlt_le_weak, factor_pos].
Qed.

Lemma candidates_length (raw : list Q) :
  length (candidates mean_rate t_start t_stop raw) = length raw.
Proof.
  unfold candidates. rewrite length_map, cumsum_length. apply rescale_length.
Qed.

(** Cumulative sums of non-negative intervals: sorted, none before
    [t_start]. *)
Lemma candidates_sorted (raw : list Q) :
  nonneg raw ->
  sorted (candidates mean_rate t_start t_stop raw) /\
  Forall (fun t => start <= t) (candidates mean_rate t_start t_stop raw).
Proof.
  intros H. apply rescale_nonneg, cumsum_sorted in H. destruct H as [Hn Hs].
  unfold candidates. split.
  - apply sorted_map_add, Hs.
  - apply Forall_map. eapply Forall_impl; [|exact Hn].
    simpl. intros v Hv. qlra.
Qed.

Lemma index_last_inv (a : list Q) (g : G) x g' :
  index_last a g = Returns (x, g') ->
  g' = g /\ exists init, a = init ++ [x].
Proof.
  unfold index_last. destruct (rev a) as [|y r] eqn:E; [discriminate|].
  intros H. inversion H; subst. split; [reflexivity|].
  exists (rev r). rewrite <- (rev_involutive a), E. reflexivity.
Qed.

(** The two ways [fit] returns: truncation without any further draw, or
    the buffer followed by a run of the extension loop. *)
Lemma fit_returns_inv (fuel : nat) (spikes : list Q) (g : G) res g' :
  fit gen args mean_rate t_stop fuel spikes g = Returns (res, g') ->
  (searchsorted spikes stop <> length spikes /\
   res = firstn (searchsorted spikes stop) spikes /\ g' = g) \/
  (searchsorted spikes stop = length spikes /\
   exists init last x g1 extra t_over,
     spikes = init ++ [last] /\
     one g = Returns (x, g1) /\
     extension gen args mean_rate t_stop (last + x) g1 extra t_over g' /\
     res = spikes ++ extra).
Proof.
  unfold fit.
  destruct (Nat.eqb_spec (searchsorted spikes stop) (length spikes))
    as [E|E]; intros H.
  - right. split; [assumption|]. unfold bind in H.
    destruct (index_last spikes g) as [[last g0]| |] eqn:L; try discriminate.
    apply index_last_inv in L. destruct L as [-> [init Hinit]].
    destruct (one g) as [[x g1]| |] eqn:D; try discriminate.
    destruct (extend gen args mean_rate t_stop fuel (last + x) [] g1)
      as [[extra g2]| |] eqn:X; try discriminate.
    inversion H; subst res g'.
    apply extend_extension in X. destruct X as (ex & t_over & -> & Hext).
    exists init, last, x, g1, ex, t_over. simpl. auto.
  - left. inversion H; subst. auto.
Qed.

(** The packaging: it leaves the generator alone, it hands back the
    sequence it was given, and [ValueError] is all it can raise. *)
Lemma package_returns_inv (as_array : bool) (spikes : list Q) (g : G) r g' :
  package t_start t_stop as_array spikes g = Returns (r, g') ->
  values r = spikes /\ g' = g.
Proof.
  unfold package. destruct as_array.
  - intros H. inversion H. auto.
  - destruct (check_time_in_range t_start t_stop spikes); [|discriminate].
    intros H. inversion H. auto.
Qed.

Lemma package_raises (as_array : bool) (spikes : list Q) (g : G) e :
  package t_start t_stop as_array spikes g = Raises e ->
  as_array = false /\ e = ValueError /\
  check_time_in_range t_start t_stop spikes = false.
Proof.
  unfold package. destruct as_array; [discriminate|].
  destruct (check_time_in_range t_start t_stop spikes); [discriminate|].
  intros H. inversion H. auto.
Qed.

Lemma package_ends (as_array : bool) (spikes : list Q) (g : G) :
  package t_start t_stop as_array spikes g <> OutOfFuel.
Proof.
  unfold package. destruct as_array; [discriminate|].
  destruct (check_time_in_range t_start t_stop spikes); discriminate.
Qed.

(** The check passes on a window that is not inverted when every time
    lies between the bounds. *)
Lemma check_time_in_range_passes (spikes : list Q) :
  start <= stop ->
  Forall (fun t => start <= t /\ t <= stop) spikes ->
  check_time_in_range t_start t_stop spikes = true.
Proof.
  intros Hw H. unfold check_time_in_range. apply andb_true_intro. split.
  - apply negb_true_iff. destruct (Qlt_bool stop start) eqn:E; [|reflexivity].
    apply Qlt_bool_iff in E. qlra.
  - apply forallb_forall. rewrite Forall_forall in H. intros t Ht.
    destruct (H t Ht) as [Hlo Hhi].
    apply andb_true_intro. split; apply Qle_bool_iff; assumption.
Qed.

(** The check fails on an inverted window, whatever the times. *)
Lemma check_time_in_range_inverted (spikes : list Q) :
  stop < start -> check_time_in_range t_start t_stop spikes = false.
Proof.
  intros Hw. unfold check_time_in_range.
  assert (E : Qlt_bool stop start = true) by (apply Qlt_bool_iff; exact Hw).
  rewrite E. reflexivity.
Qed.

Lemma process_returns_inv (fuel : nat) (as_array : bool) (g : G) r g' :
  _homogeneous_process gen args mean_rate t_start t_stop fuel as_array g
    = Returns (r, g') ->
  exists number spikes,
    sample_count (expected_count mean_rate t_start t_stop) = Some number /\
    (4 < number)%Z /\
    fit gen args mean_rate t_stop fuel
        (candidates mean_rate t_start t_stop
                    (fst (gen args (Z.to_nat number) g)))
        (snd (gen args (Z.to_nat number) g)) = Returns (spikes, g') /\
    values r = spikes /\
    package t_start t_stop as_array spikes g' = Returns (r, g').
Proof.
  unfold _homogeneous_process, bind, assert_number, draw.
  destruct (sample_count _) as [number|]; [|discriminate].
  destruct (Z.ltb_spec 4 number) as [Hk|Hk]; [|discriminate].
  unfold ret at 1.
  destruct (gen args (Z.to_nat number) g) as [raw g1] eqn:Eg. simpl.
  destruct (fit _ _ _ _ _ _ _) as [[spikes g2]| |] eqn:F; try discriminate.
  intros H. destruct (package_returns_inv _ _ _ _ _ H) as [Hv ->].
  exists number, spikes. rewrite Eg. simpl. auto.
Qed.

(** Whatever [fit] returns on sorted candidates that start at [t_start]
    lies in the window and is sorted. *)
Lemma fit_within_window (fuel : nat) (spikes : list Q) (g : G) res g' :
  gen_nonneg gen ->
  sorted spikes -> Forall (fun t => start <= t) spikes ->
  fit gen args mean_rate t_stop fuel spikes g = Returns (res, g') ->
  Forall (fun t => start <= t /\ t < stop) res /\ sorted res.
Proof.
  intros Hg Hs Hlo H. apply fit_returns_inv in H.
  pose proof (searchsorted_sorted spikes stop Hs) as Eip.
  destruct H as [(Hne & -> & _) | (Heq & init & last & x & g1 & extra
                                    & t_over & Hsp & Hd & Hext & ->)].
  - split; [|apply sorted_firstn, Hs].
    rewrite Eip. pose proof (insertion_point_below spikes stop) as Hb.
    rewrite Forall_forall in *. intros t Ht. split; [|apply Hb, Ht].
    apply Hlo. eapply In_firstn, Ht.
  - rewrite Eip in Heq. apply insertion_point_all_below in Heq.
    pose proof (extension_below _ _ _ _ _ _ _ _ _ _ _ Hext)
      as (Hex & _ & _).
    pose proof (extension_sorted _ _ _ _ _ _ _ _ _ _ _ Hg Hext)
      as (Hes & Hge).
    pose proof (draw_one_nonneg _ _ _ _ _ _ _ _ _ Hg Hd) as Hx.
    assert (Hlast : forall t, In t spikes -> t <= last).
    { rewrite Hsp in Hs |- *. clear - Hs. intros t Ht.
      apply in_app_or in Ht. destruct Ht as [Ht|[<-|[]]]; [|qlra].
      induction init as [|y r IH]; [destruct Ht|].
      simpl in Hs. inversion Hs as [|? ? Hr Hy]; subst.
      destruct Ht as [<-|Ht]; [|apply IH; assumption].
      rewrite Forall_forall in Hy. apply Hy, in_or_app. right. left.
      reflexivity. }
    assert (Hl0 : start <= last).
    { rewrite Forall_forall in Hlo. apply Hlo. rewrite Hsp.
      apply in_or_app. right. left. reflexivity. }
    rewrite Forall_forall in Hge, Hlo, Hex, Heq. split.
    + apply Forall_forall. intros t Ht. apply in_app_or in Ht.
      destruct Ht as [Ht|Ht].
      * split; [apply Hlo | apply Heq]; assumption.
      * split; [|apply Hex, Ht]. specialize (Hge t Ht). simpl in Hge. qlra.
    + apply sorted_app; try assumption.
      intros a b Ha Hb. specialize (Hlast a Ha). specialize (Hge b Hb).
      simpl in Hge. qlra.
Qed.

End Body.

(** ** The window *)

Lemma in_window_of_bounds (t_start t_stop : Quantity) (l : list Q) :
  Forall (fun t => magnitude (rescale_to t_start (units t_stop)) <= t /\
                   t < magnitude t_stop) l ->
  in_window t_start t_stop l.
Proof.
  intros H. eapply Forall_impl; [|exact H]. simpl. intros t [Hlo Hhi].
  pose proof (factor_pos (units t_stop)) as Hf.
  unfold Qty_le, Qty_lt, simplified, event. simpl. split.
  - rewrite <- (Qdiv_mult_cancel (magnitude t_start * factor (units t_start))
                                 (factor (units t_stop)) Hf).
    apply Qmult_le_compat_r; [assumption | apply Qlt_le_weak, Hf].
  - apply Qmult_lt_compat_r; assumption.
Qed.

Lemma process_within_window
  {G A} (gen : A -> nat -> G -> list Q * G) (args : A)
  (mean_rate t_start t_stop : Quantity) (fuel : nat) (as_array : bool)
  (g : G) (r : result) (g' : G) :
  gen_nonneg gen ->
  _homogeneous_process gen args mean_rate t_start t_stop fuel as_array g
    = Returns (r, g') ->
  in_window t_start t_stop (values r) /\ sorted (values r).
Proof.
  intros Hg H. apply process_returns_inv in H.
  destruct H as (number & spikes & _ & _ & Hfit & E & _).
  destruct (candidates_sorted mean_rate t_start t_stop _
              (Hg args (Z.to_nat number) g)) as [Hs Hlo].
  destruct (fit_within_window _ _ _ _ _ t_start _ _ _ _ _ _ Hg Hs Hlo Hfit)
    as [Hw Hsorted].
  rewrite E. split; [apply in_window_of_bounds|]; assumption.
Qed.

(** ** The concrete sources *)

Lemma stream_source_sized {A} (f : nat -> Q) : gen_sized (@stream_source A f).
Proof. intros a k g. simpl. rewrite length_map. apply length_seq. Qed.

Lemma stream_source_nonneg {A} (f : nat -> Q) :
  (forall i, 0 <= f i) -> gen_nonneg (@stream_source A f).
Proof.
  intros Hf a k g. simpl. apply Forall_map, Forall_forall. intros i _.
  apply Hf.
Qed.

Lemma late_ones_nonneg (k i : nat) : 0 <= late_ones k i.
Proof. unfold late_ones. destruct (i <? k)%nat; discriminate. Qed.

Lemma sample_count_some_gt_4 (n number : Z) :
  sample_count n = Some number -> (4 < number)%Z.
Proof.
  intros H. destruct (Z.lt_ge_cases n 0) as [Hn|Hn].
  - rewrite (sample_count_negative n Hn) in H. discriminate.
  - destruct (sample_count_gt_4 n Hn) as (k & Hk & Hk4). congruence.
Qed.

(** ** Fuel does not change what is returned *)

Section Fuel.

Variables G A : Type.
Variable gen : A -> nat -> G -> list Q * G.
Variable args : A.
Variables mean_rate t_start t_stop : Quantity.

Lemma extend_fuel_mono (f : nat) :
  forall t acc g v,
    extend gen args mean_rate t_stop f t acc g = Returns v ->
    forall f', (f <= f')%nat ->
      extend gen args mean_rate t_stop f' t acc g = Returns v.
Proof.
  induction f as [|f IH]; intros t acc g v H f' Hle.
  - cbn [extend] in H. destruct f'; cbn [extend];
      destruct (Qlt_bool t (magnitude t_stop)); try discriminate; exact H.
  - destruct f' as [|f']; [lia|]. cbn [extend] in *.
    destruct (Qlt_bool t (magnitude t_stop)); [|exact H].
    unfold bind in *.
    destruct (draw_one gen args mean_rate t_stop g) as [[x g1]| |];
      try discriminate.
    apply (IH _ _ _ _ H). lia.
Qed.

Lemma fit_fuel_mono (f f' : nat) (spikes : list Q) (g : G) v :
  (f <= f')%nat ->
  fit gen args mean_rate t_stop f spikes g = Returns v ->
  fit gen args mean_rate t_stop f' spikes g = Returns v.
Proof.
  intros Hle. unfold fit. destruct (_ =? _)%nat; [|trivial].
  unfold bind. destruct (index_last spikes g) as [[last g0]| |]; trivial.
  destruct (draw_one gen args mean_rate t_stop g0) as [[x g1]| |]; trivial.
  destruct (extend gen args mean_rate t_stop f (last + x) [] g1)
    as [[extra g2]| |] eqn:X; try discriminate.
  rewrite (extend_fuel_mono _ _ _ _ _ X f' Hle). trivial.
Qed.

Lemma process_fuel_mono (f f' : nat) (as_array : bool) (g : G) v :
  (f <= f')%nat ->
  _homogeneous_process gen args mean_rate t_start t_stop f as_array g
  = Returns v ->
  _homogeneous_process gen args mean_rate t_start t_stop f' as_array g
  = Returns v.
Proof.
  intros Hle. unfold _homogeneous_process, bind.
  destruct (assert_number _ g) as [[number g0]| |]; trivial.
  destruct (draw gen args (Z.to_nat number) g0) as [[raw g1]| |]; trivial.
  destruct (fit gen args mean_rate t_stop f _ g1) as [[spikes g2]| |] eqn:F;
    try discriminate.
  rewrite (fit_fuel_mono _ _ _ _ _ Hle F). trivial.
Qed.

End Fuel.

(** ** What a call can raise *)

(** [int] keeps the sign of a non-negative number. *)
Lemma int_nonneg (x : Q) : 0 <= x -> (0 <= int x)%Z.
Proof.
  intros Hx. unfold int. apply Z.quot_pos; [|lia].
  unfold Qle in Hx. simpl in Hx. lia.
Qed.

(** Past the assertion, an empty array is all that can go wrong before
    the packaging. *)
Lemma draw_one_raises
  {G A} (gen : A -> nat -> G -> list Q * G) (args : A)
  (mean_rate t_stop : Quantity) (g : G) (e : exn) :
  draw_one gen args mean_rate t_stop g = Raises e -> e = IndexError.
Proof.
  unfold draw_one, bind, draw. destruct (gen args 1%nat g) as [l g1].
  unfold index_first. destruct (rescale mean_rate t_stop l); [|discriminate].
  intros H. inversion H. reflexivity.
Qed.

Lemma extend_raises
  {G A} (gen : A -> nat -> G -> list Q * G) (args : A)
  (mean_rate t_stop : Quantity) (fuel : nat) :
  forall t acc g e,
    extend gen args mean_rate t_stop fuel t acc g = Raises e ->
    e = IndexError.
Proof.
  induction fuel as [|f IH]; intros t acc g e; cbn [extend];
    destruct (Qlt_bool t (magnitude t_stop)); try discriminate.
  unfold bind.
  destruct (draw_one gen args mean_rate t_stop g) as [[x g1]|e'|] eqn:D;
    try discriminate.
  - apply IH.
  - intros H. inversion H; subst. exact (draw_one_raises _ _ _ _ _ _ D).
Qed.

Lemma fit_raises
  {G A} (gen : A -> nat -> G -> list Q * G) (args : A)
  (mean_rate t_stop : Quantity) (fuel : nat) (spikes : list Q) (g : G)
  (e : exn) :
  fit gen args mean_rate t_stop fuel spikes g = Raises e -> e = IndexError.
Proof.
  unfold fit. destruct (_ =? _)%nat; [|discriminate].
  unfold bind, index_last.
  destruct (rev spikes) as [|last rest].
  - intros H. inversion H. reflexivity.
  - unfold ret at 1.
    destruct (draw_one gen args mean_rate t_stop g) as [[x g1]|e'|] eqn:D;
      try discriminate.
    + destruct (extend gen args mean_rate t_stop fuel (last + x) [] g1)
        as [[extra g2]|e'|] eqn:X; try discriminate.
      intros H. inversion H; subst. exact (extend_raises _ _ _ _ _ _ _ _ _ X).
    + intros H. inversion H; subst. exact (draw_one_raises _ _ _ _ _ _ D).
Qed.

Lemma process_assertion_passes
  {G A} (gen : A -> nat -> G -> list Q * G) (args : A)
  (mean_rate t_start t_stop : Quantity) (fuel : nat) (as_array : bool)
  (g : G) :
  (0 <= expected_count mean_rate t_start t_stop)%Z ->
  _homogeneous_process gen args mean_rate t_start t_stop fuel as_array g
  <> Raises AssertionError.
Proof.
  intros Hn. destruct (sample_count_gt_4 _ Hn) as (k & Hk & Hk4).
  unfold _homogeneous_process, bind, assert_number, draw. rewrite Hk.
  destruct (Z.ltb_spec 4 k) as [_|]; [|lia]. unfold ret at 1.
  destruct (gen args (Z.to_nat k) g) as [raw g1].
  destruct (fit gen args mean_rate t_stop fuel _ g1) as [[res g2]|e|] eqn:F;
    try discriminate.
  - intros H. apply package_raises in H. destruct H as (_ & H & _).
    discriminate.
  - apply fit_raises in F. subst e. discriminate.
Qed.

Lemma process_assertion_fails
  {G A} (gen : A -> nat -> G -> list Q * G) (args : A)
  (mean_rate t_start t_stop : Quantity) (fuel : nat) (as_array : bool)
  (g : G) :
  (expected_count mean_rate t_start t_stop < 0)%Z ->
  _homogeneous_process gen args mean_rate t_start t_stop fuel as_array g
  = Raises AssertionError.
Proof.
  intros Hn. unfold _homogeneous_process, bind, assert_number.
  rewrite (sample_count_negative _ Hn). reflexivity.
Qed.

(** ** A loop that never ends *)

Lemma process_out_of_fuel
  {G A} (gen : A -> nat -> G -> list Q * G) (args : A)
  (mean_rate t_start t_stop : Quantity) (fuel : nat) (as_array : bool)
  (g : G) (number : Z) (last x : Q) (g2 : G) :
  sample_count (expected_count mean_rate t_start t_stop) = Some number ->
  let spikes :=
    candidates mean_rate t_start t_stop (fst (gen args (Z.to_nat number) g)) in
  let g1 := snd (gen args (Z.to_nat number) g) in
  searchsorted spikes (magnitude t_stop) = length spikes ->
  index_last spikes g1 = Returns (last, g1) ->
  draw_one gen args mean_rate t_stop g1 = Returns (x, g2) ->
  extend gen args mean_rate t_stop fuel (last + x) [] g2 = OutOfFuel ->
  _homogeneous_process gen args mean_rate t_start t_stop fuel as_array g
  = OutOfFuel.
Proof.
  intros Hn spikes g1 Hi Hl Hd Hx.
  pose proof (sample_count_some_gt_4 _ _ Hn) as Hk.
  unfold _homogeneous_process, bind, assert_number, draw. rewrite Hn.
  destruct (Z.ltb_spec 4 number) as [_|]; [|lia]. unfold ret at 1.
  subst spikes g1.
  destruct (gen args (Z.to_nat number) g) as [raw g1]. simpl in *.
  unfold fit. rewrite Hi, Nat.eqb_refl. unfold bind. rewrite Hl, Hd, Hx.
  reflexivity.
Qed.

(** With intervals that are all zero the running time stays where it is
    and the loop uses up any fuel. *)
Lemma extend_zero_intervals (mean_rate t_stop : Quantity) (fuel : nat) :
  0 < magnitude t_stop ->
  forall t acc g,
    t == 0 ->
    extend (stream_source (fun _ => 0)) tt mean_rate t_stop fuel t acc g
    = OutOfFuel.
Proof.
  intros Hstop.
  induction fuel as [|f IH]; intros t acc g Ht; cbn [extend];
    assert (E : Qlt_bool t (magnitude t_stop) = true)
      by (apply Qlt_bool_iff; rewrite Ht; exact Hstop);
    rewrite E; [reflexivity|].
  unfold bind, draw_one, bind, draw, stream_source, index_first, rescale.
  cbn [seq map]. unfold ret. apply IH. rewrite Ht. unfold Qdiv. ring.
Qed.

(** ** The adapters *)

Lemma Qty_inv_simplified (q : Quantity) :
  simplified (Qty_inv q) == / simplified q.
Proof.
  unfold simplified, Qty_inv, factor, unit_inv. simpl.
  rewrite Qinv_mult_distr. reflexivity.
Qed.

Lemma Qty_div_scalar_simplified (q : Quantity) (a : Q) :
  simplified (Qty_div_scalar q a) == simplified q / a.
Proof. unfold simplified, Qty_div_scalar, Qdiv. simpl. ring. Qed.

(** ** Two random sources side by side *)

Section Determinism.

Variables G1 G2 A1 A2 : Type.
Variable gen1 : A1 -> nat -> G1 -> list Q * G1.
Variable gen2 : A2 -> nat -> G2 -> list Q * G2.
Variable args1 : A1.
Variable args2 : A2.
Variable R : G1 -> G2 -> Prop.
Variables mean_rate t_start t_stop : Quantity.

(** From related states the two generators hand out the same values and
    move to related states. *)
Hypothesis same_values :
  forall k h1 h2, R h1 h2 ->
    fst (gen1 args1 k h1) = fst (gen2 args2 k h2) /\
    R (snd (gen1 args1 k h1)) (snd (gen2 args2 k h2)).

Lemma same_outcome_bind {X Y} (m1 : M G1 X) (m2 : M G2 X)
  (k1 : X -> M G1 Y) (k2 : X -> M G2 Y) (h1 : G1) (h2 : G2) :
  same_outcome R (m1 h1) (m2 h2) ->
  (forall x h1' h2', R h1' h2' -> same_outcome R (k1 x h1') (k2 x h2')) ->
  same_outcome R (bind m1 k1 h1) (bind m2 k2 h2).
Proof.
  unfold bind. intros Hm Hk.
  destruct (m1 h1) as [[x1 h1']|e1|], (m2 h2) as [[x2 h2']|e2|];
    simpl in *; try contradiction; try assumption; try discriminate.
  destruct Hm as [-> Hr]. apply Hk, Hr.
Qed.

Lemma same_outcome_draw (k : nat) (h1 : G1) (h2 : G2) :
  R h1 h2 ->
  same_outcome R (draw gen1 args1 k h1) (draw gen2 args2 k h2).
Proof.
  intros Hr. unfold draw. destruct (same_values k h1 h2 Hr) as [Hv Hs].
  destruct (gen1 args1 k h1), (gen2 args2 k h2). simpl in *. auto.
Qed.

Lemma same_outcome_draw_one (h1 : G1) (h2 : G2) :
  R h1 h2 ->
  same_outcome R (draw_one gen1 args1 mean_rate t_stop h1)
                 (draw_one gen2 args2 mean_rate t_stop h2).
Proof.
  intros Hr. unfold draw_one.
  apply same_outcome_bind; [apply same_outcome_draw, Hr|].
  intros x h1' h2' Hr'. unfold index_first.
  destruct (rescale mean_rate t_stop x); simpl; auto.
Qed.

Lemma same_outcome_extend (fuel : nat) :
  forall t acc h1 h2,
    R h1 h2 ->
    same_outcome R (extend gen1 args1 mean_rate t_stop fuel t acc h1)
                   (extend gen2 args2 mean_rate t_stop fuel t acc h2).
Proof.
  induction fuel as [|f IH]; intros t acc h1 h2 Hr; cbn [extend];
    destruct (Qlt_bool t (magnitude t_stop)); simpl; auto.
  apply same_outcome_bind; [apply same_outcome_draw_one, Hr|].
  intros x h1' h2' Hr'. apply IH, Hr'.
Qed.

Lemma same_outcome_fit (fuel : nat) (spikes : list Q) (h1 : G1) (h2 : G2) :
  R h1 h2 ->
  same_outcome R (fit gen1 args1 mean_rate t_stop fuel spikes h1)
                 (fit gen2 args2 mean_rate t_stop fuel spikes h2).
Proof.
  intros Hr. unfold fit. destruct (_ =? _)%nat; [|simpl; auto].
  apply same_outcome_bind.
  { unfold index_last. destruct (rev spikes); simpl; auto. }
  intros last h1' h2' Hr'.
  apply same_outcome_bind; [apply same_outcome_draw_one, Hr'|].
  intros x k1 k2 Hk.
  apply same_outcome_bind; [apply same_outcome_extend, Hk|].
  intros extra j1 j2 Hj. simpl. auto.
Qed.

Lemma same_outcome_process (fuel : nat) (as_array : bool) (g1 : G1) (g2 : G2) :
  R g1 g2 ->
  same_outcome R
    (_homogeneous_process gen1 args1 mean_rate t_start t_stop fuel as_array g1)
    (_homogeneous_process gen2 args2 mean_rate t_start t_stop fuel as_array g2).
Proof.
  intros Hr. unfold _homogeneous_process.
  apply same_outcome_bind.
  { unfold assert_number. destruct (sample_count _) as [k|]; simpl; auto.
    destruct (4 <? k)%Z; simpl; auto. }
  intros number h1 h2 Hh.
  apply same_outcome_bind; [apply same_outcome_draw, Hh|].
  intros raw k1 k2 Hk.
  apply same_outcome_bind; [apply same_outcome_fit, Hk|].
  intros spikes j1 j2 Hj. unfold package. destruct as_array; simpl; auto.
  destruct (check_time_in_range t_start t_stop spikes); simpl; auto.
Qed.

End Determinism.

(** ** The call, past the size assertion *)

Section Past.

Variables G A : Type.
Variable gen : A -> nat -> G -> list Q * G.
Variable args : A.
Variables mean_rate t_start t_stop : Quantity.

Local Abbreviation stop := (magnitude t_stop).
Local Abbreviation one := (draw_one gen args mean_rate t_stop).
Local Abbreviation singles := (single_draws gen args mean_rate t_stop).
Local Abbreviation process :=
  (_homogeneous_process gen args mean_rate t_start t_stop).

(** Once the size is known the call is the bulk draw, the fit and the
    packaging. *)
Lemma process_after_assertion
  (fuel : nat) (as_array : bool) (g : G) (number : Z) :
  sample_count (expected_count mean_rate t_start t_stop) = Some number ->
  process fuel as_array g
  = (spikes <- fit gen args mean_rate t_stop fuel
                   (candidates mean_rate t_start t_stop
                      (fst (gen args (Z.to_nat number) g))) ;;
     package t_start t_stop as_array spikes)
      (snd (gen args (Z.to_nat number) g)).
Proof.
  intros Hn. pose proof (sample_count_some_gt_4 _ _ Hn) as Hk.
  unfold _homogeneous_process, bind, assert_number, draw. rewrite Hn.
  destruct (Z.ltb_spec 4 number) as [_|]; [|lia]. unfold ret at 1.
  destruct (gen args (Z.to_nat number) g) as [raw g1]. reflexivity.
Qed.

(** When the insertion index is not the buffer length, [fit] hands back
    the first entries without a draw and without a turn of the loop. *)
Lemma fit_truncates (fuel : nat) (spikes : list Q) (g : G) :
  searchsorted spikes stop <> length spikes ->
  fit gen args mean_rate t_stop fuel spikes g
  = Returns (firstn (searchsorted spikes stop) spikes, g).
Proof.
  intros Hi. unfold fit.
  destruct (Nat.eqb_spec (searchsorted spikes stop) (length spikes))
    as [E|E]; [contradiction | reflexivity].
Qed.

(** What the call does once the size is known and the insertion index is
    not the buffer length. *)
Lemma process_truncates
  (fuel : nat) (as_array : bool) (g : G) (number : Z) :
  sample_count (expected_count mean_rate t_start t_stop) = Some number ->
  let spikes :=
    candidates mean_rate t_start t_stop (fst (gen args (Z.to_nat number) g)) in
  let i := searchsorted spikes stop in
  i <> length spikes ->
  process fuel as_array g
  = package t_start t_stop as_array (firstn i spikes)
            (snd (gen args (Z.to_nat number) g)).
Proof.
  intros Hn spikes i Hi. rewrite (process_after_assertion _ _ _ _ Hn).
  unfold bind. fold spikes. rewrite (fit_truncates _ _ _ Hi). reflexivity.
Qed.

Lemma candidates_nonempty (g : G) (number : Z) :
  gen_sized gen -> (4 < number)%Z ->
  candidates mean_rate t_start t_stop (fst (gen args (Z.to_nat number) g))
  <> [].
Proof.
  intros Hs Hk E. apply (f_equal (@length Q)) in E.
  rewrite candidates_length, (Hs args (Z.to_nat number) g) in E.
  simpl in E. lia.
Qed.

(** [a[-1]] of an array that is not empty. *)
Lemma index_last_last (a : list Q) (g : G) :
  a <> [] -> index_last a g = Returns (last a 0, g).
Proof.
  intros Ha. destruct (exists_last Ha) as (init & x & ->).
  unfold index_last. rewrite rev_unit, last_last. reflexivity.
Qed.

(** The loop leaves as soon as the running time is at or past [t_stop]:
    when the single draws [xs] take the running time there, a turn for
    each of them is enough. *)
Lemma extend_reaches (g : G) (xs : list Q) (g' : G) :
  singles g xs g' ->
  forall t acc fuel,
    stop <= running t xs -> (length xs <= fuel)%nat ->
    exists extra g'',
      extend gen args mean_rate t_stop fuel t acc g
      = Returns (acc ++ extra, g'').
Proof.
  induction 1 as [g | g x g1 xs g' Hd Hs IH]; intros t acc fuel Hr Hf.
  - unfold running in Hr. simpl in Hr. apply Qlt_bool_false_iff in Hr.
    exists [], g. destruct fuel; cbn [extend]; rewrite Hr, app_nil_r;
      reflexivity.
  - destruct (Qlt_bool t stop) eqn:E.
    + simpl in Hf. destruct fuel as [|f]; [lia|]. cbn [extend].
      rewrite E. unfold bind. rewrite Hd.
      destruct (IH (t + x) (acc ++ [t]) f Hr ltac:(lia))
        as (extra & g'' & Hx).
      exists (t :: extra), g''. rewrite Hx, <- app_assoc. reflexivity.
    + exists [], g. destruct fuel; cbn [extend]; rewrite E, app_nil_r;
        reflexivity.
Qed.

(** So does [fit], on a buffer that is not empty; the first of the draws
    is made before the loop. *)
Lemma fit_reaches (spikes : list Q) (g : G) (xs : list Q) (g' : G)
  (fuel : nat) :
  spikes <> [] -> xs <> [] ->
  singles g xs g' ->
  stop <= running (last spikes 0) xs ->
  (length xs <= S fuel)%nat ->
  exists res g'',
    fit gen args mean_rate t_stop fuel spikes g = Returns (res, g'').
Proof.
  intros Hne Hxs Hs Hr Hf. unfold fit.
  destruct (_ =? _)%nat; [|eexists _, _; reflexivity].
  unfold bind. rewrite (index_last_last _ _ Hne).
  inversion Hs as [|? x g1 xs' ? Hd Hs']; subst; [contradiction|].
  rewrite Hd. simpl in Hf.
  destruct (extend_reaches _ _ _ Hs' (last spikes 0 + x) [] fuel Hr
              ltac:(lia)) as (extra & g'' & Hx).
  rewrite Hx. eexists _, _. reflexivity.
Qed.

(** What is left of the call when [fit] has returned. *)
Lemma process_after_fit
  (fuel : nat) (as_array : bool) (g : G) (number : Z) res g' :
  sample_count (expected_count mean_rate t_start t_stop) = Some number ->
  fit gen args mean_rate t_stop fuel
      (candidates mean_rate t_start t_stop
         (fst (gen args (Z.to_nat number) g)))
      (snd (gen args (Z.to_nat number) g)) = Returns (res, g') ->
  process fuel as_array g = package t_start t_stop as_array res g'.
Proof.
  intros Hn Hfit. rewrite (process_after_assertion _ _ _ _ Hn).
  unfold bind. rewrite Hfit. reflexivity.
Qed.

(** On a window that is not inverted, with intervals that are not
    negative, what [fit] returns passes the check of the constructor. *)
Lemma fit_passes_check (fuel : nat) (g : G) (number : Z) res g' :
  gen_nonneg gen ->
  magnitude (rescale_to t_start (units t_stop)) <= stop ->
  fit gen args mean_rate t_stop fuel
      (candidates mean_rate t_start t_stop
         (fst (gen args (Z.to_nat number) g)))
      (snd (gen args (Z.to_nat number) g)) = Returns (res, g') ->
  check_time_in_range t_start t_stop res = true.
Proof.
  intros Hg Hw Hfit.
  destruct (candidates_sorted mean_rate t_start t_stop _
              (Hg args (Z.to_nat number) g)) as [Hs Hlo].
  destruct (fit_within_window _ _ _ _ _ t_start _ _ _ _ _ _ Hg Hs Hlo Hfit)
    as [Hin _].
  apply check_time_in_range_passes; [exact Hw|].
  eapply Forall_impl; [|exact Hin]. cbv beta. intros t [Hlo' Hhi].
  split; [exact Hlo' | apply Qlt_le_weak, Hhi].
Qed.

End Past.

(** ** The docstring examples, on sources of equal intervals

    At 50 Hz over one second the buffer takes 100 intervals; intervals of
    30 ms put 33 events into the window.  With shape 2 and rate 50 Hz the
    mean rate is 25 Hz and the buffer takes 55 intervals; intervals of
    40 ms put 24 events into the window. *)

Example poisson_50Hz :
  match homogeneous_poisson_process (stream_source (fun _ => 3 # 100)) 0
          (quantity 50 Hz) (quantity 0 ms) (quantity 1000 ms) true 0%nat
  with
  | Returns (r, g) =>
      map Qred (values r)
      = map (fun k => inject_Z (30 * Z.of_nat k)) (seq 1 33) /\
      g = 100%nat
  | _ => False
  end.
Proof. vm_compute. split; reflexivity. Qed.

Example gamma_2_50Hz :
  match homogeneous_gamma_process (stream_source (fun _ => 4 # 100)) 0 2
          (quantity 50 Hz) (quantity 0 ms) (quantity 1000 ms) true 0%nat
  with
  | Returns (r, g) =>
      map Qred (values r)
      = map (fun k => inject_Z (40 * Z.of_nat k)) (seq 1 24) /\
      g = 55%nat
  | _ => False
  end.
Proof. vm_compute. split; reflexivity. Qed.

(** An underrun: at 1 Hz over four seconds the buffer takes 13 intervals;
    intervals of a quarter of a second leave it at 3.25 s, and the loop
    takes two turns, appending 3.5 s and 3.75 s, before the running time
    is at 4 s.  One turn is not enough. *)
Example underrun_of_quarter_seconds :
  match _homogeneous_process (stream_source (fun _ => 1 # 4)) tt
          (quantity 1 Hz) (quantity 0 second) (quantity 4 second)
          2%nat true 0%nat
  with
  | Returns (r, g) =>
      map Qred (values r)
      = map (fun k => Qred (inject_Z (Z.of_nat k) / 4)) (seq 1 15) /\
      g = 16%nat
  | _ => False
  end /\
  _homogeneous_process (stream_source (fun _ => 1 # 4)) tt
    (quantity 1 Hz) (quantity 0 second) (quantity 4 second) 1%nat true 0%nat
  = OutOfFuel.
Proof. vm_compute. repeat split; reflexivity. Qed.

(** * The claims *)

(** C1.  A call of [_homogeneous_process] whose interval generator hands
    out non-negative values only, and so a call of
    [homogeneous_poisson_process] or [homogeneous_gamma_process] on such a
    generator, returns event times [t] with [t_start <= t < t_stop], in
    non-decreasing order.  (The window need not even satisfy
    [t_start < t_stop]: on an inverted window a call that returns
    returns the empty sequence.) *)
Theorem event_times_within_window
  (G A : Type) (gen : A -> nat -> G -> list Q * G)
  (exponential : Quantity -> nat -> G -> list Q * G)
  (gamma : Q * Quantity -> nat -> G -> list Q * G) :
  gen_nonneg gen -> gen_nonneg exponential -> gen_nonneg gamma ->
  (forall args mean_rate t_start t_stop fuel as_array g r g',
      _homogeneous_process gen args mean_rate t_start t_stop fuel as_array g
        = Returns (r, g') ->
      in_window t_start t_stop (values r) /\ sorted (values r)) /\
  (forall rate t_start t_stop fuel as_array g r g',
      homogeneous_poisson_process exponential fuel rate t_start t_stop
                                  as_array g = Returns (r, g') ->
      in_window t_start t_stop (values r) /\ sorted (values r)) /\
  (forall a b t_start t_stop fuel as_array g r g',
      homogeneous_gamma_process gamma fuel a b t_start t_stop as_array g
        = Returns (r, g') ->
      in_window t_start t_stop (values r) /\ sorted (values r)).
Proof.
  intros Hgen Hexp Hgam. split; [|split].
  - intros args mean_rate t_start t_stop fuel as_array g r g' H.
    exact (process_within_window gen _ _ _ _ _ _ _ _ _ Hgen H).
  - intros rate t_start t_stop fuel as_array g r g' H.
    exact (process_within_window exponential _ _ _ _ _ _ _ _ _ Hexp H).
  - intros a b t_start t_stop fuel as_array g r g' H.
    exact (process_within_window gamma _ _ _ _ _ _ _ _ _ Hgam H).
Qed.

Lemma event_times_within_window_witness :
  in_window (quantity 0 second) (quantity 3 second)
            [0; 0; 0; 0; 0; 0; 0; 0; 0; 0; 0; 1; 2] /\
  sorted [0; 0; 0; 0; 0; 0; 0; 0; 0; 0; 0; 1; 2].
Proof.
  pose proof (event_times_within_window nat unit
                (stream_source (late_ones 11))
                (stream_source (late_ones 11))
                (stream_source (late_ones 11))
                (stream_source_nonneg _ (late_ones_nonneg 11))
                (stream_source_nonneg _ (late_ones_nonneg 11))
                (stream_source_nonneg _ (late_ones_nonneg 11)))
    as (H & _ & _).
  apply (H tt (quantity 1 Hz) (quantity 0 second) (quantity 3 second)
           5%nat true 0%nat
           (Array [0; 0; 0; 0; 0; 0; 0; 0; 0; 0; 0; 1; 2]) 14%nat).
  vm_compute. reflexivity.
Defined.

(** C2, as stated, fails: the code does not size the buffer from the
    product [(t_stop - t_start) * mean_rate] itself.  At 1 Hz over a window
    of 500 ms the product is one half; the rule applied to it gives 6, the
    code draws 5. *)
Lemma truncation_changes_sample_count :
  rate_window_product (quantity 1 Hz) (quantity 0 ms) (quantity 500 ms)
  == 1 # 2 /\
  sample_count (expected_count (quantity 1 Hz) (quantity 0 ms)
                               (quantity 500 ms)) = Some 5%Z /\
  spec_size (Q2R (rate_window_product (quantity 1 Hz) (quantity 0 ms)
                                      (quantity 500 ms))) = 6%Z /\
  sample_count (expected_count (quantity 1 Hz) (quantity 0 ms)
                               (quantity 500 ms))
  <> Some (spec_size (Q2R (rate_window_product (quantity 1 Hz) (quantity 0 ms)
                                               (quantity 500 ms)))).
Proof.
  assert (Hp : rate_window_product (quantity 1 Hz) (quantity 0 ms)
                                   (quantity 500 ms) == 1 # 2)
    by reflexivity.
  assert (Hc5 : sample_count (expected_count (quantity 1 Hz) (quantity 0 ms)
                                             (quantity 500 ms)) = Some 5%Z)
    by (vm_compute; reflexivity).
  cut (spec_size (Q2R (rate_window_product (quantity 1 Hz) (quantity 0 ms)
                                           (quantity 500 ms))) = 6%Z).
  { intros H6. repeat split; try assumption.
    rewrite Hc5, H6. discriminate. }
  rewrite (Qreals.Qeq_eqR _ _ Hp).
  assert (Hx : Q2R (1 # 2) = (/ 2)%R) by (unfold Q2R; simpl; rlra).
  rewrite Hx. unfold spec_size.
  assert (Hs : (sqrt (/ 2) <= 1)%R).
  { rewrite <- sqrt_1. apply sqrt_le_1; rlra. }
  assert (Hc : (Zceil (/ 2 + 3 * sqrt (/ 2)) <= 4)%Z).
  { rewrite <- (Zceil_IZR 4). apply Zceil_le. rlra. }
  destruct (Z.ltb_spec (Zceil (/ 2 + 3 * sqrt (/ 2))) 100) as [_|]; [|lia].
  replace (2 * / 2)%R with (IZR 1) by rlra.
  rewrite Zceil_IZR. reflexivity.
Qed.

(** C2, amended.  The code first cuts the product down to the integer
    [n = int((t_stop - t_start) * mean_rate)].  For [n] not negative, the
    sample count is [ceil(n + 3*sqrt(n))], and [min(5 + ceil(2*n), 100)]
    when that is below 100; this many intervals are drawn in bulk. *)
Theorem sample_count_of_truncated_product
  (G A : Type) (gen : A -> nat -> G -> list Q * G) (args : A)
  (mean_rate t_start t_stop : Quantity) (fuel : nat) (as_array : bool)
  (g : G) :
  (0 <= expected_count mean_rate t_start t_stop)%Z ->
  expected_count mean_rate t_start t_stop
  = int (rate_window_product mean_rate t_start t_stop) /\
  sample_count (expected_count mean_rate t_start t_stop)
  = Some (spec_size (IZR (expected_count mean_rate t_start t_stop))) /\
  _homogeneous_process gen args mean_rate t_start t_stop fuel as_array g
  = (raw <- draw gen args
                 (Z.to_nat (spec_size
                              (IZR (expected_count mean_rate t_start t_stop))))
       ;;
     spikes <- fit gen args mean_rate t_stop fuel
                   (candidates mean_rate t_start t_stop raw) ;;
     package t_start t_stop as_array spikes) g.
Proof.
  intros Hn. pose proof (sample_count_spec_size _ Hn) as Hs.
  split; [reflexivity|]. split; [exact Hs|].
  pose proof (sample_count_some_gt_4 _ _ Hs) as Hk.
  unfold _homogeneous_process. rewrite Hs.
  unfold bind at 1. unfold assert_number.
  destruct (Z.ltb_spec 4 (spec_size
                            (IZR (expected_count mean_rate t_start t_stop))))
    as [_|]; [|lia].
  reflexivity.
Qed.

Lemma sample_count_of_truncated_product_witness :
  (0 <= expected_count (quantity 1 Hz) (quantity 0 ms) (quantity 500 ms))%Z /\
  sample_count (expected_count (quantity 1 Hz) (quantity 0 ms)
                               (quantity 500 ms))
  = Some (spec_size (IZR (expected_count (quantity 1 Hz) (quantity 0 ms)
                                         (quantity 500 ms)))).
Proof.
  assert (Hn : (0 <= expected_count (quantity 1 Hz) (quantity 0 ms)
                                    (quantity 500 ms))%Z)
    by (vm_compute; discriminate).
  split; [exact Hn|].
  exact (proj1 (proj2 (sample_count_of_truncated_product
                         nat unit (stream_source (fun _ => 1)) tt
                         (quantity 1 Hz) (quantity 0 ms) (quantity 500 ms)
                         0%nat true 0%nat Hn))).
Defined.

(** C3.  The extension loop tests [t_last < t_stop] before it appends: a
    turn appends [t_last] and then advances it by one more drawn and
    rescaled interval.  The branch is taken exactly when the insertion
    index of [t_stop] is the buffer length; what it appends lies strictly
    below [t_stop], and the running time it leaves with, at or past
    [t_stop], is not appended. *)
Theorem extension_checks_before_appending
  (G A : Type) (gen : A -> nat -> G -> list Q * G) (args : A)
  (mean_rate t_start t_stop : Quantity) (fuel : nat) (as_array : bool)
  (g : G) (r : result) (g' : G) (number : Z) :
  sample_count (expected_count mean_rate t_start t_stop) = Some number ->
  _homogeneous_process gen args mean_rate t_start t_stop fuel as_array g
    = Returns (r, g') ->
  let spikes :=
    candidates mean_rate t_start t_stop (fst (gen args (Z.to_nat number) g)) in
  let g1 := snd (gen args (Z.to_nat number) g) in
  let i := searchsorted spikes (magnitude t_stop) in
  (forall f t acc,
      extend gen args mean_rate t_stop (S f) t acc =
      if Qlt_bool t (magnitude t_stop)
      then (x <- draw_one gen args mean_rate t_stop ;;
            extend gen args mean_rate t_stop f (t + x) (acc ++ [t]))
      else ret acc) /\
  (i <> length spikes -> values r = firstn i spikes /\ g' = g1) /\
  (i = length spikes ->
   exists init last x g2 extra t_over,
     spikes = init ++ [last] /\
     draw_one gen args mean_rate t_stop g1 = Returns (x, g2) /\
     extension gen args mean_rate t_stop (last + x) g2 extra t_over g' /\
     values r = spikes ++ extra /\
     Forall (fun p => p < magnitude t_stop) extra /\
     magnitude t_stop <= t_over /\ ~ In t_over extra).
Proof.
  intros Hn H spikes g1 i. split; [reflexivity|].
  apply process_returns_inv in H.
  destruct H as (number' & res & Hn' & _ & Hfit & E & _).
  assert (number' = number) by congruence. subst number'.
  rewrite E. apply fit_returns_inv in Hfit. fold spikes g1 i in Hfit.
  destruct Hfit as [(Hne & -> & ->) | (Heq & init & last & x & g2 & extra
                                       & t_over & Hsp & Hd & Hext & ->)].
  - split; [auto | contradiction].
  - split; [contradiction | intros _].
    exists init, last, x, g2, extra, t_over.
    pose proof (extension_below _ _ _ _ _ _ _ _ _ _ _ Hext)
      as (Hex & Hover & Hnin).
    auto 10.
Qed.

Lemma extension_checks_before_appending_witness :
  exists init last x g2 extra t_over,
    [0; 0; 0; 0; 0; 0; 0; 0; 0; 0; 0] = init ++ [last] /\
    draw_one (stream_source (late_ones 11)) tt (quantity 1 Hz)
             (quantity 3 second) 11%nat = Returns (x, g2) /\
    extension (stream_source (late_ones 11)) tt (quantity 1 Hz)
              (quantity 3 second) (last + x) g2 extra t_over 14%nat /\
    [0; 0; 0; 0; 0; 0; 0; 0; 0; 0; 0; 1; 2]
    = [0; 0; 0; 0; 0; 0; 0; 0; 0; 0; 0] ++ extra /\
    Forall (fun p => p < 3) extra /\ 3 <= t_over /\ ~ In t_over extra.
Proof.
  assert (Hn : sample_count (expected_count (quantity 1 Hz)
                               (quantity 0 second) (quantity 3 second))
               = Some 11%Z) by (vm_compute; reflexivity).
  assert (Hrun : _homogeneous_process (stream_source (late_ones 11)) tt
                   (quantity 1 Hz) (quantity 0 second) (quantity 3 second)
                   5%nat true 0%nat
                 = Returns (Array [0; 0; 0; 0; 0; 0; 0; 0; 0; 0; 0; 1; 2],
                            14%nat)) by (vm_compute; reflexivity).
  destruct (extension_checks_before_appending _ _ _ _ _ _ _ _ _ _ _ _ _
              Hn Hrun) as (_ & _ & Hunder).
  apply Hunder. vm_compute. reflexivity.
Defined.

(** C4, as stated, fails: a product that is not negative keeps the size
    assertion from failing, not the call from going wrong after it.  At
    1 Hz over a window of 500 ms the product is one half and five
    intervals are drawn; when these are all zero, and so are the intervals
    drawn after them, the call never returns, whatever the fuel. *)
Lemma small_window_never_returns :
  0 <= rate_window_product (quantity 1 Hz) (quantity 0 ms) (quantity 500 ms) /\
  Qty_lt (quantity 0 ms) (quantity 500 ms) /\
  sample_count (expected_count (quantity 1 Hz) (quantity 0 ms)
                               (quantity 500 ms)) = Some 5%Z /\
  gen_nonneg (@stream_source unit (fun _ => 0)) /\
  gen_sized (@stream_source unit (fun _ => 0)) /\
  forall fuel as_array,
    _homogeneous_process (stream_source (fun _ => 0)) tt (quantity 1 Hz)
                         (quantity 0 ms) (quantity 500 ms)
                         fuel as_array 0%nat
    = OutOfFuel.
Proof.
  split; [vm_compute; discriminate|].
  split; [reflexivity|].
  split; [vm_compute; reflexivity|].
  split; [apply stream_source_nonneg; intros; discriminate|].
  split; [apply stream_source_sized|].
  intros fuel as_array.
  eapply (process_out_of_fuel _ _ _ _ _ fuel as_array _ 5%Z);
    try (vm_compute; reflexivity).
  apply extend_zero_intervals; reflexivity.
Qed.

(** C4, amended.  When the product [(t_stop - t_start) * mean_rate] is not
    negative the sample count is above 4 and the call never fails on the
    size assertion, whatever the generator.  It returns when the buffer
    reaches [t_stop] (insertion index below the buffer length): the first
    candidates as an array when [as_array] is set, and what the
    [SpikeTrain] constructor makes of them when it is not. *)
Theorem size_assertion_never_fails
  (G A : Type) (gen : A -> nat -> G -> list Q * G) (args : A)
  (mean_rate t_start t_stop : Quantity) (g : G) :
  0 <= rate_window_product mean_rate t_start t_stop ->
  exists size,
    sample_count (expected_count mean_rate t_start t_stop) = Some size /\
    (4 < size)%Z /\
    (forall fuel as_array,
        _homogeneous_process gen args mean_rate t_start t_stop fuel as_array g
        <> Raises AssertionError) /\
    let spikes :=
      candidates mean_rate t_start t_stop (fst (gen args (Z.to_nat size) g)) in
    let g1 := snd (gen args (Z.to_nat size) g) in
    let i := searchsorted spikes (magnitude t_stop) in
    (i < length spikes)%nat ->
    forall fuel,
      _homogeneous_process gen args mean_rate t_start t_stop fuel true g
      = Returns (Array (firstn i spikes), g1) /\
      _homogeneous_process gen args mean_rate t_start t_stop fuel false g
      = package t_start t_stop false (firstn i spikes) g1.
Proof.
  intros Hp. pose proof (int_nonneg _ Hp) as Hn.
  fold (expected_count mean_rate t_start t_stop) in Hn.
  destruct (sample_count_gt_4 _ Hn) as (size & Hs & H4).
  exists size. split; [exact Hs|]. split; [exact H4|]. split.
  - intros fuel as_array. apply process_assertion_passes, Hn.
  - intros spikes g1 i Hi fuel.
    assert (Hne : i <> length spikes) by lia.
    split.
    + exact (process_truncates G A gen args mean_rate t_start t_stop
               fuel true g size Hs Hne).
    + exact (process_truncates G A gen args mean_rate t_start t_stop
               fuel false g size Hs Hne).
Qed.

Lemma size_assertion_never_fails_witness :
  0 <= rate_window_product (quantity 1 Hz) (quantity 0 second)
                           (quantity (1 # 2) second) /\
  sample_count (expected_count (quantity 1 Hz) (quantity 0 second)
                               (quantity (1 # 2) second)) = Some 5%Z /\
  (forall fuel as_array,
      _homogeneous_process (stream_source (fun _ => 3 # 10)) tt
                           (quantity 1 Hz) (quantity 0 second)
                           (quantity (1 # 2) second) fuel as_array 0%nat
      <> Raises AssertionError) /\
  (forall fuel,
      _homogeneous_process (stream_source (fun _ => 3 # 10)) tt
                           (quantity 1 Hz) (quantity 0 second)
                           (quantity (1 # 2) second) fuel true 0%nat
      = Returns (Array [3 # 10], 5%nat)).
Proof.
  assert (Hp : 0 <= rate_window_product (quantity 1 Hz) (quantity 0 second)
                                        (quantity (1 # 2) second))
    by (vm_compute; discriminate).
  split; [exact Hp|].
  destruct (size_assertion_never_fails nat unit
              (stream_source (fun _ => 3 # 10)) tt (quantity 1 Hz)
              (quantity 0 second) (quantity (1 # 2) second) 0%nat Hp)
    as (size & Hs & _ & Hpass & Hsurplus).
  assert (E : size = 5%Z) by (vm_compute in Hs; congruence). subst size.
  split; [exact Hs|]. split; [exact Hpass|].
  intros fuel.
  assert (Hi : (searchsorted
                  (candidates (quantity 1 Hz) (quantity 0 second)
                     (quantity (1 # 2) second)
                     (fst (stream_source (fun _ => 3 # 10) tt
                             (Z.to_nat 5) 0%nat)))
                  (magnitude (quantity (1 # 2) second))
                < length
                    (candidates (quantity 1 Hz) (quantity 0 second)
                       (quantity (1 # 2) second)
                       (fst (stream_source (fun _ => 3 # 10) tt
                               (Z.to_nat 5) 0%nat))))%nat)
    by (vm_compute; lia).
  exact (proj1 (Hsurplus Hi fuel)).
Defined.

(** C5.  When the insertion index [i] of [t_stop] in the sorted candidate
    sequence is below the buffer length, lines 33-45 leave exactly the
    first [i] candidates, all strictly before [t_stop]; no further draw is
    made (the generator is left as the bulk draw left it) and no turn of
    the extension loop is run (any fuel will do, none included).  These
    first [i] candidates are what the call hands to the packaging: with
    [as_array] set they are returned as they are, and a call that returns
    returns them. *)
Theorem surplus_buffer_is_truncated
  (G A : Type) (gen : A -> nat -> G -> list Q * G) (args : A)
  (mean_rate t_start t_stop : Quantity) (fuel : nat) (as_array : bool)
  (g : G) (number : Z) :
  sample_count (expected_count mean_rate t_start t_stop) = Some number ->
  let spikes :=
    candidates mean_rate t_start t_stop (fst (gen args (Z.to_nat number) g)) in
  let g1 := snd (gen args (Z.to_nat number) g) in
  let i := searchsorted spikes (magnitude t_stop) in
  sorted spikes ->
  (i < length spikes)%nat ->
  fit gen args mean_rate t_stop fuel spikes g1
  = Returns (firstn i spikes, g1) /\
  Forall (fun t => t < magnitude t_stop) (firstn i spikes) /\
  _homogeneous_process gen args mean_rate t_start t_stop fuel as_array g
  = package t_start t_stop as_array (firstn i spikes) g1 /\
  _homogeneous_process gen args mean_rate t_start t_stop fuel true g
  = Returns (Array (firstn i spikes), g1) /\
  (forall r g',
      _homogeneous_process gen args mean_rate t_start t_stop fuel as_array g
      = Returns (r, g') ->
      values r = firstn i spikes /\ g' = g1).
Proof.
  intros Hn spikes g1 i Hs Hi.
  assert (Hne : i <> length spikes) by lia.
  pose proof (process_truncates G A gen args mean_rate t_start t_stop
                fuel as_array g number Hn Hne) as Hrun.
  fold spikes i g1 in Hrun.
  split; [exact (fit_truncates G A gen args mean_rate t_stop fuel spikes g1
                   Hne)|].
  split.
  { subst i. rewrite (searchsorted_sorted _ _ Hs).
    apply insertion_point_below. }
  split; [exact Hrun|].
  split.
  { exact (process_truncates G A gen args mean_rate t_start t_stop
             fuel true g number Hn Hne). }
  intros r g' H. rewrite Hrun in H.
  exact (package_returns_inv G t_start t_stop as_array _ g1 r g' H).
Qed.

Lemma surplus_buffer_is_truncated_witness :
  fit (stream_source (fun _ => 3)) tt (quantity 1 Hz) (quantity 10 second)
      0%nat
      (candidates (quantity 1 Hz) (quantity 0 second) (quantity 10 second)
         (fst (stream_source (fun _ => 3) tt 25%nat 0%nat)))
      25%nat
  = Returns ([3; 6; 9], 25%nat) /\
  Forall (fun t => t < 10) [3; 6; 9] /\
  _homogeneous_process (stream_source (fun _ => 3)) tt (quantity 1 Hz)
                       (quantity 0 second) (quantity 10 second)
                       0%nat false 0%nat
  = package (quantity 0 second) (quantity 10 second) false [3; 6; 9] 25%nat /\
  _homogeneous_process (stream_source (fun _ => 3)) tt (quantity 1 Hz)
                       (quantity 0 second) (quantity 10 second)
                       0%nat true 0%nat
  = Returns (Array [3; 6; 9], 25%nat) /\
  (forall r g',
      _homogeneous_process (stream_source (fun _ => 3)) tt (quantity 1 Hz)
                           (quantity 0 second) (quantity 10 second)
                           0%nat false 0%nat
      = Returns (r, g') ->
      values r = [3; 6; 9] /\ g' = 25%nat).
Proof.
  apply (surplus_buffer_is_truncated nat unit (stream_source (fun _ => 3)) tt
           (quantity 1 Hz) (quantity 0 second) (quantity 10 second)
           0%nat false 0%nat 25%Z).
  - vm_compute. reflexivity.
  - by_computation.
  - vm_compute. lia.
Defined.

(** C6, as stated, fails: a generator of zero intervals is non-negative,
    and with it the call does not return, whatever the fuel. *)
Lemma zero_intervals_never_return :
  gen_nonneg (@stream_source unit (fun _ => 0)) /\
  Qty_lt (quantity 0 second) (quantity 1 second) /\
  forall fuel,
    _homogeneous_process (stream_source (fun _ => 0)) tt (quantity 1 Hz)
                         (quantity 0 second) (quantity 1 second)
                         fuel true 0%nat
    = OutOfFuel.
Proof.
  split; [apply stream_source_nonneg; intros; discriminate|].
  split; [reflexivity|].
  intros fuel.
  apply (process_out_of_fuel _ _ _ _ _ _ _ _ 7%Z 0 0 8%nat);
    try (vm_compute; reflexivity).
  apply extend_zero_intervals; reflexivity.
Qed.

(** C6, amended.  The call ends when the running time gets to [t_stop]:
    take a generator that hands out as many values as asked; if, whenever
    the buffer stops short of [t_stop], the single draws [xs] that follow
    the bulk draw take the running time, started at the last buffered time
    and advanced by one drawn interval after the other as lines 37 and 40
    do, to [t_stop] or past it, then the call ends, and the loop takes
    fewer turns than there are draws in [xs]: the call returns when [n] is
    not negative and [as_array] is set, it fails on the size assertion
    when [n] is negative, and it never stays in the loop. *)
Theorem process_terminates_when_t_stop_is_reached
  (G A : Type) (gen : A -> nat -> G -> list Q * G) (args : A)
  (mean_rate t_start t_stop : Quantity) (g : G) (xs : list Q) (g' : G) :
  gen_sized gen ->
  (forall number,
      sample_count (expected_count mean_rate t_start t_stop) = Some number ->
      let spikes :=
        candidates mean_rate t_start t_stop
                   (fst (gen args (Z.to_nat number) g)) in
      let g1 := snd (gen args (Z.to_nat number) g) in
      searchsorted spikes (magnitude t_stop) = length spikes ->
      xs <> [] /\
      single_draws gen args mean_rate t_stop g1 xs g' /\
      magnitude t_stop <= running (last spikes 0) xs) ->
  forall fuel, (length xs <= S fuel)%nat ->
    (forall as_array,
        _homogeneous_process gen args mean_rate t_start t_stop
                             fuel as_array g <> OutOfFuel) /\
    ((0 <= expected_count mean_rate t_start t_stop)%Z ->
     exists spikes g'',
       _homogeneous_process gen args mean_rate t_start t_stop fuel true g
       = Returns (Array spikes, g'')) /\
    ((expected_count mean_rate t_start t_stop < 0)%Z ->
     forall as_array,
       _homogeneous_process gen args mean_rate t_start t_stop
                            fuel as_array g = Raises AssertionError).
Proof.
  intros Hsized Hreach fuel Hf.
  destruct (sample_count (expected_count mean_rate t_start t_stop))
    as [number|] eqn:Hn.
  - pose proof (sample_count_some_gt_4 _ _ Hn) as H4.
    specialize (Hreach number eq_refl). cbv zeta in Hreach.
    pose proof (candidates_nonempty G A gen args mean_rate t_start t_stop
                  g number Hsized H4) as Hne.
    assert (Hfit : exists res g'',
              fit gen args mean_rate t_stop fuel
                  (candidates mean_rate t_start t_stop
                     (fst (gen args (Z.to_nat number) g)))
                  (snd (gen args (Z.to_nat number) g))
              = Returns (res, g'')).
    { destruct (Nat.eq_dec
                  (searchsorted
                     (candidates mean_rate t_start t_stop
                        (fst (gen args (Z.to_nat number) g)))
                     (magnitude t_stop))
                  (length (candidates mean_rate t_start t_stop
                             (fst (gen args (Z.to_nat number) g)))))
        as [Hi|Hi].
      - destruct (Hreach Hi) as (Hxs & Hs & Hr).
        exact (fit_reaches G A gen args mean_rate t_stop _ _ xs g' fuel
                 Hne Hxs Hs Hr Hf).
      - eexists _, _.
        exact (fit_truncates G A gen args mean_rate t_stop fuel _ _ Hi). }
    destruct Hfit as (res & g'' & Hres).
    split; [|split].
    + intros as_array.
      rewrite (process_after_fit G A gen args mean_rate t_start t_stop
                 fuel as_array g number res g'' Hn Hres).
      apply package_ends.
    + intros _. exists res, g''.
      exact (process_after_fit G A gen args mean_rate t_start t_stop
               fuel true g number res g'' Hn Hres).
    + intros Hneg. rewrite (sample_count_negative _ Hneg) in Hn.
      discriminate.
  - assert (Hfail : forall as_array,
               _homogeneous_process gen args mean_rate t_start t_stop
                                    fuel as_array g = Raises AssertionError).
    { intros as_array. unfold _homogeneous_process, bind, assert_number.
      rewrite Hn. reflexivity. }
    split; [|split].
    + intros as_array. rewrite Hfail. discriminate.
    + intros H0. destruct (sample_count_gt_4 _ H0) as (k & Hk & _).
      congruence.
    + intros _. exact Hfail.
Qed.

(** At 1 Hz over four seconds with intervals of a quarter of a second the
    buffer of 13 stops at 3.25 s; three single draws take the running
    time to 4 s, and two turns of the loop are enough. *)
Lemma process_terminates_when_t_stop_is_reached_witness :
  (forall as_array,
      _homogeneous_process (stream_source (fun _ => 1 # 4)) tt
                           (quantity 1 Hz) (quantity 0 second)
                           (quantity 4 second) 2%nat as_array 0%nat
      <> OutOfFuel) /\
  exists spikes g'',
    _homogeneous_process (stream_source (fun _ => 1 # 4)) tt
                         (quantity 1 Hz) (quantity 0 second)
                         (quantity 4 second) 2%nat true 0%nat
    = Returns (Array spikes, g'').
Proof.
  assert (Hreach :
    forall number,
      sample_count (expected_count (quantity 1 Hz) (quantity 0 second)
                                   (quantity 4 second)) = Some number ->
      let spikes :=
        candidates (quantity 1 Hz) (quantity 0 second) (quantity 4 second)
          (fst (stream_source (fun _ => 1 # 4) tt (Z.to_nat number) 0%nat)) in
      let g1 :=
        snd (stream_source (fun _ => 1 # 4) tt (Z.to_nat number) 0%nat) in
      searchsorted spikes (magnitude (quantity 4 second)) = length spikes ->
      [1 # 4; 1 # 4; 1 # 4] <> [] /\
      single_draws (stream_source (fun _ => 1 # 4)) tt (quantity 1 Hz)
                   (quantity 4 second) g1 [1 # 4; 1 # 4; 1 # 4] 16%nat /\
      magnitude (quantity 4 second)
      <= running (last spikes 0) [1 # 4; 1 # 4; 1 # 4]).
  { intros number Hn. vm_compute in Hn. injection Hn as <-.
    intros spikes g1 _.
    split; [discriminate|]. split.
    - eapply single_draws_cons; [vm_compute; reflexivity|].
      eapply single_draws_cons; [vm_compute; reflexivity|].
      eapply single_draws_cons; [vm_compute; reflexivity|].
      apply single_draws_nil.
    - vm_compute. discriminate. }
  destruct (process_terminates_when_t_stop_is_reached nat unit
              (stream_source (fun _ => 1 # 4)) tt
              (quantity 1 Hz) (quantity 0 second) (quantity 4 second) 0%nat
              [1 # 4; 1 # 4; 1 # 4] 16%nat
              (stream_source_sized _) Hreach 2%nat ltac:(simpl; lia))
    as (Hends & Hreturns & _).
  split; [exact Hends|]. apply Hreturns. vm_compute. discriminate.
Defined.

(** C7.  [homogeneous_poisson_process] computes [mean_interval = 1 / rate]
    and is the sampler run on the exponential generator with the one
    argument [mean_interval], with [rate] as mean rate and the same
    [t_start], [t_stop] and [as_array]. *)
Theorem poisson_forwards_to_sampler
  (G : Type) (exponential : Quantity -> nat -> G -> list Q * G)
  (fuel : nat) (rate t_start t_stop : Quantity) (as_array : bool) :
  homogeneous_poisson_process exponential fuel rate t_start t_stop as_array
  = _homogeneous_process exponential (Qty_inv rate) rate t_start t_stop
                         fuel as_array /\
  magnitude (Qty_inv rate) = / magnitude rate /\
  units (Qty_inv rate) = unit_inv (units rate) /\
  simplified (Qty_inv rate) == 1 / simplified rate.
Proof.
  repeat split. rewrite Qty_inv_simplified. unfold Qdiv. ring.
Qed.

(** C8.  [homogeneous_gamma_process] computes [rate = b / a], shape [a]
    and scale [1 / b], and is the sampler run on the gamma generator with
    the arguments (shape, scale), with mean rate [b / a] and the same
    [t_start], [t_stop] and [as_array]. *)
Theorem gamma_forwards_to_sampler
  (G : Type) (gamma : Q * Quantity -> nat -> G -> list Q * G)
  (fuel : nat) (a : Q) (b t_start t_stop : Quantity) (as_array : bool) :
  homogeneous_gamma_process gamma fuel a b t_start t_stop as_array
  = _homogeneous_process gamma (a, Qty_inv b) (Qty_div_scalar b a)
                         t_start t_stop fuel as_array /\
  simplified (Qty_div_scalar b a) == simplified b / a /\
  simplified (Qty_inv b) == 1 / simplified b.
Proof.
  split; [reflexivity|]. split; [apply Qty_div_scalar_simplified|].
  rewrite Qty_inv_simplified. unfold Qdiv. ring.
Qed.

(** C9, as stated, fails: the [SpikeTrain] constructor checks what it is
    given, and [spikes.magnitude] does not.  On an inverted window (1 Hz,
    from 500 ms to 0 ms, intervals of one second) the call with [as_array]
    set returns the empty array and the call without it raises
    [ValueError]; so it is on a window from 0 s to 10 s when the first
    interval drawn is negative and puts an event before [t_start]. *)
Lemma constructor_refuses_what_the_array_takes :
  _homogeneous_process (stream_source (fun _ => 1)) tt (quantity 1 Hz)
                       (quantity 500 ms) (quantity 0 ms) 0%nat true 0%nat
  = Returns (Array [], 5%nat) /\
  _homogeneous_process (stream_source (fun _ => 1)) tt (quantity 1 Hz)
                       (quantity 500 ms) (quantity 0 ms) 0%nat false 0%nat
  = Raises ValueError /\
  _homogeneous_process
    (stream_source (fun i => if (i =? 0)%nat then -1 else 20)) tt
    (quantity 1 Hz) (quantity 0 second) (quantity 10 second) 0%nat true 0%nat
  = Returns (Array [-1], 25%nat) /\
  _homogeneous_process
    (stream_source (fun i => if (i =? 0)%nat then -1 else 20)) tt
    (quantity 1 Hz) (quantity 0 second) (quantity 10 second) 0%nat false 0%nat
  = Raises ValueError.
Proof. repeat split; vm_compute; reflexivity. Qed.

(** C9, amended.  On a window that is not inverted, [t_start] rescaled to
    the units of [t_stop] being at most [t_stop], and with a generator
    that hands out no negative value, the call with [as_array] set and the
    call with it unset, made on one generator in one state, go the same
    way and leave the generator in the same state; when they return, the
    event times are the same, bare in an array in the one case and held in
    a [SpikeTrain] along with [t_start] and [t_stop] in the other. *)
Theorem as_array_changes_only_the_wrapping
  (G A : Type) (gen : A -> nat -> G -> list Q * G) (args : A)
  (mean_rate t_start t_stop : Quantity) (fuel : nat) (g : G) :
  gen_nonneg gen ->
  magnitude (rescale_to t_start (units t_stop)) <= magnitude t_stop ->
  underlying (_homogeneous_process gen args mean_rate t_start t_stop
                                   fuel true g)
  = underlying (_homogeneous_process gen args mean_rate t_start t_stop
                                     fuel false g) /\
  match _homogeneous_process gen args mean_rate t_start t_stop fuel true g,
        _homogeneous_process gen args mean_rate t_start t_stop fuel false g
  with
  | Returns (r1, _), Returns (r2, _) =>
      r1 = Array (values r1) /\
      r2 = Train {| times := values r1;
                    train_units := units t_stop;
                    train_t_start := t_start;
                    train_t_stop := t_stop |}
  | Returns _, _ | _, Returns _ => False
  | _, _ => True
  end.
Proof.
  intros Hg Hw.
  destruct (sample_count (expected_count mean_rate t_start t_stop))
    as [number|] eqn:Hn.
  - rewrite !(process_after_assertion G A gen args mean_rate t_start t_stop
                fuel _ g number Hn).
    unfold bind.
    destruct (fit gen args mean_rate t_stop fuel _ _) as [[res g2]|e|] eqn:F;
      [|simpl; auto..].
    pose proof (fit_passes_check G A gen args mean_rate t_start t_stop
                  fuel g number res g2 Hg Hw F) as Hc.
    unfold package. rewrite Hc. simpl. auto.
  - unfold _homogeneous_process, bind, assert_number. rewrite Hn.
    simpl. auto.
Qed.

Lemma as_array_changes_only_the_wrapping_witness :
  underlying (_homogeneous_process (stream_source (late_ones 11)) tt
                (quantity 1 Hz) (quantity 0 second) (quantity 3 second)
                5%nat true 0%nat)
  = underlying (_homogeneous_process (stream_source (late_ones 11)) tt
                  (quantity 1 Hz) (quantity 0 second) (quantity 3 second)
                  5%nat false 0%nat).
Proof.
  refine (proj1 (as_array_changes_only_the_wrapping nat unit
                   (stream_source (late_ones 11)) tt
                   (quantity 1 Hz) (quantity 0 second) (quantity 3 second)
                   5%nat 0%nat _ _)).
  - apply stream_source_nonneg, late_ones_nonneg.
  - vm_compute. discriminate.
Defined.

(** * Further properties of the sampler *)

(** ** The size of the buffer *)

Lemma ceil_sqrt_le (m c : Z) :
  (0 <= m)%Z -> (0 <= c)%Z -> (m <= c * c)%Z -> (ceil_sqrt m <= c)%Z.
Proof.
  intros Hm Hc Hle. destruct (ceil_sqrt_spec m Hm) as (H0 & _ & Hdown).
  destruct (Z.eq_dec (ceil_sqrt m) 0) as [E|E]; [lia|].
  assert (H : ((ceil_sqrt m - 1) * (ceil_sqrt m - 1) < m)%Z)
    by (apply Hdown; lia).
  nia.
Qed.

Lemma ceil_sqrt_ge (m c : Z) :
  (0 <= m)%Z -> (0 <= c)%Z -> ((c - 1) * (c - 1) < m)%Z ->
  (c <= ceil_sqrt m)%Z.
Proof.
  intros Hm Hc Hlt. destruct (ceil_sqrt_spec m Hm) as (H0 & Hup & _). nia.
Qed.

Lemma ceil_sqrt_mono (m1 m2 : Z) :
  (0 <= m1 <= m2)%Z -> (ceil_sqrt m1 <= ceil_sqrt m2)%Z.
Proof.
  intros [H1 H2].
  destruct (ceil_sqrt_spec m2 ltac:(lia)) as (H0 & Hup & _).
  apply ceil_sqrt_le; lia.
Qed.

(** The three ranges of lines 25-27, on the integer estimate. *)
Lemma sample_count_ranges (n : Z) :
  (0 <= n)%Z ->
  sample_count n
  = Some (if (n <=? 47)%Z then 5 + 2 * n
          else if (n <=? 73)%Z then 100
          else n + ceil_sqrt (9 * n))%Z /\
  (74 <= n -> 100 <= n + ceil_sqrt (9 * n))%Z.
Proof.
  intros Hn. unfold sample_count, np_ceil_n_3sqrt.
  destruct (Z.ltb_spec n 0) as [|_]; [lia|].
  assert (Hbig : (74 <= n -> 100 <= n + ceil_sqrt (9 * n))%Z).
  { intros H. pose proof (ceil_sqrt_ge (9 * n) 26). lia. }
  split; [|exact Hbig].
  destruct (Z.leb_spec n 47) as [H47|H47].
  - pose proof (ceil_sqrt_le (9 * n) 21). 
    destruct (Z.ltb_spec (n + ceil_sqrt (9 * n)) 100); [f_equal|]; lia.
  - destruct (Z.leb_spec n 73) as [H73|H73].
    + pose proof (ceil_sqrt_le (9 * n) 26).
      destruct (Z.ltb_spec (n + ceil_sqrt (9 * n)) 100); [f_equal|]; lia.
    + destruct (Z.ltb_spec (n + ceil_sqrt (9 * n)) 100); [lia|reflexivity].
Qed.

Lemma Zceil_estimate (n : Z) :
  (0 <= n)%Z ->
  Zceil (IZR n + 3 * sqrt (IZR n))%R = (n + ceil_sqrt (9 * n))%Z.
Proof.
  intros Hn. pose proof (np_ceil_is_ceiling n Hn) as Hc.
  unfold np_ceil_n_3sqrt in Hc.
  destruct (Z.ltb_spec n 0) as [|_]; [lia|]. congruence.
Qed.

(** X1.  The buffer size of lines 25-27 in closed form, for [n] not
    negative: [5 + 2n] up to [n = 47], exactly 100 from 48 to 73, and the
    three-sigma estimate [ceil(n + 3*sqrt(n))], which is then at least 100,
    from 74 on. *)
Theorem sample_count_closed_form (n : Z) :
  (0 <= n)%Z ->
  sample_count n
  = Some (if (n <=? 47)%Z then 5 + 2 * n
          else if (n <=? 73)%Z then 100
          else Zceil (IZR n + 3 * sqrt (IZR n))%R)%Z /\
  (74 <= n -> 100 <= Zceil (IZR n + 3 * sqrt (IZR n))%R)%Z.
Proof.
  intros Hn. destruct (sample_count_ranges n Hn) as [Hs Hbig].
  rewrite (Zceil_estimate n Hn). split; assumption.
Qed.

Lemma sample_count_closed_form_witness :
  (0 <= 60)%Z /\ sample_count 60 = Some 100%Z.
Proof.
  split; [lia|].
  exact (proj1 (sample_count_closed_form 60 ltac:(lia))).
Defined.

(** X2.  For [n] not negative the buffer is never smaller than [n], nor
    than the three-sigma estimate [ceil(n + 3*sqrt(n))] (the rule of lines
    26-27 only ever enlarges it), and a larger [n] never gets a smaller
    buffer. *)
Theorem sample_count_grows (n m : Z) :
  (0 <= n <= m)%Z ->
  exists kn km,
    sample_count n = Some kn /\ sample_count m = Some km /\
    (n <= kn)%Z /\ (Zceil (IZR n + 3 * sqrt (IZR n))%R <= kn)%Z /\
    (kn <= km)%Z.
Proof.
  intros [Hn Hm].
  destruct (sample_count_ranges n Hn) as [Hsn Hbn].
  destruct (sample_count_ranges m ltac:(lia)) as [Hsm Hbm].
  rewrite (Zceil_estimate n Hn).
  pose proof (ceil_sqrt_mono (9 * n) (9 * m) ltac:(lia)) as Hmono.
  destruct (ceil_sqrt_spec (9 * n) ltac:(lia)) as (Hc0 & _ & _).
  pose proof (ceil_sqrt_le (9 * n) (n + 5) ltac:(lia) ltac:(lia)
                ltac:(nia)) as Hest.
  pose proof (ceil_sqrt_le (9 * n) 26 ltac:(lia) ltac:(lia)) as H26.
  eexists _, _. split; [exact Hsn|]. split; [exact Hsm|].
  destruct (Z.leb_spec n 47), (Z.leb_spec n 73),
           (Z.leb_spec m 47), (Z.leb_spec m 73); lia.
Qed.

Lemma sample_count_grows_witness :
  exists kn km,
    sample_count 10 = Some kn /\ sample_count 80 = Some km /\
    (10 <= kn)%Z /\ (Zceil (IZR 10 + 3 * sqrt (IZR 10))%R <= kn)%Z /\
    (kn <= km)%Z.
Proof. apply (sample_count_grows 10 80). lia. Defined.

(** ** The size assertion and the empty buffer *)

Lemma int_negative_iff (x : Q) : (int x < 0)%Z <-> x <= -1.
Proof.
  unfold int, Qle. destruct x as [a b]. simpl.
  destruct (Z.lt_ge_cases a 0) as [Ha|Ha].
  - pose proof (Z.quot_rem' (- a) (Z.pos b)) as Hq.
    pose proof (Z.rem_bound_pos (- a) (Z.pos b) ltac:(lia) ltac:(lia)) as Hr.
    rewrite Z.quot_opp_l in Hq by lia.
    split; intros H; nia.
  - pose proof (Z.quot_pos a (Z.pos b) Ha ltac:(lia)) as Hq.
    split; intros H; lia.
Qed.

(** X3.  The size assertion of line 28 fails exactly when the product
    [(t_stop - t_start) * mean_rate] is at most minus one, whatever the
    generator: [int] cuts toward zero, so a negative product above minus
    one still gives [n = 0] and passes. *)
Theorem assertion_fails_iff_product_le_minus_one
  (G A : Type) (gen : A -> nat -> G -> list Q * G) (args : A)
  (mean_rate t_start t_stop : Quantity) (fuel : nat) (as_array : bool)
  (g : G) :
  _homogeneous_process gen args mean_rate t_start t_stop fuel as_array g
  = Raises AssertionError
  <-> rate_window_product mean_rate t_start t_stop <= -1.
Proof.
  rewrite <- int_negative_iff.
  fold (expected_count mean_rate t_start t_stop). split.
  - intros H.
    destruct (Z.lt_ge_cases (expected_count mean_rate t_start t_stop) 0)
      as [Hn|Hn]; [exact Hn|].
    exfalso. exact (process_assertion_passes gen args mean_rate t_start
                      t_stop fuel as_array g Hn H).
  - apply process_assertion_fails.
Qed.

(** X4.  A generator that hands back an empty array for the bulk draw
    makes the call fail with [IndexError]: the empty buffer counts as an
    underrun, and line 37 reads its last entry. *)
Theorem empty_buffer_raises_IndexError
  (G A : Type) (gen : A -> nat -> G -> list Q * G) (args : A)
  (mean_rate t_start t_stop : Quantity) (fuel : nat) (as_array : bool)
  (g : G) (number : Z) :
  sample_count (expected_count mean_rate t_start t_stop) = Some number ->
  fst (gen args (Z.to_nat number) g) = [] ->
  _homogeneous_process gen args mean_rate t_start t_stop fuel as_array g
  = Raises IndexError.
Proof.
  intros Hn He.
  pose proof (sample_count_some_gt_4 _ _ Hn) as Hk.
  unfold _homogeneous_process, bind, assert_number, draw. rewrite Hn.
  destruct (Z.ltb_spec 4 number) as [_|]; [|lia]. unfold ret at 1.
  destruct (gen args (Z.to_nat number) g) as [raw g1]. simpl in He.
  subst raw. reflexivity.
Qed.

Lemma empty_buffer_raises_IndexError_witness :
  _homogeneous_process empty_source tt (quantity 1 Hz) (quantity 0 second)
                       (quantity 3 second) 5%nat true tt
  = Raises IndexError.
Proof.
  apply (empty_buffer_raises_IndexError unit unit empty_source tt
           (quantity 1 Hz) (quantity 0 second) (quantity 3 second)
           5%nat true tt 11%Z).
  - vm_compute. reflexivity.
  - reflexivity.
Defined.

(** ** The truncated buffer *)

Lemma insertion_point_none_below (a : list Q) (v : Q) :
  Forall (fun x => v <= x) a -> a <> [] ->
  insertion_point a v = O /\ insertion_point a v <> length a.
Proof.
  intros Ha Hne. destruct a as [|x r]; [contradiction|].
  inversion Ha as [|? ? Hx _]; subst. simpl.
  apply Qlt_bool_false_iff in Hx. rewrite Hx. split; [reflexivity | lia].
Qed.

Lemma filter_none_below (a : list Q) (v : Q) :
  Forall (fun x => v <= x) a -> filter (fun x => Qlt_bool x v) a = [].
Proof.
  induction 1 as [|x r Hx Hr IH]; simpl; [reflexivity|].
  apply Qlt_bool_false_iff in Hx. rewrite Hx. exact IH.
Qed.

(** On a sorted array, the entries before the insertion point are the
    entries below [v], all of them. *)
Lemma firstn_insertion_point_filter (a : list Q) (v : Q) :
  sorted a ->
  firstn (insertion_point a v) a = filter (fun x => Qlt_bool x v) a.
Proof.
  induction 1 as [|x r Hs IH Hx]; simpl; [reflexivity|].
  destruct (Qlt_bool x v) eqn:E; simpl; [f_equal; exact IH|].
  apply Qlt_bool_false_iff in E. symmetry. apply filter_none_below.
  eapply Forall_impl; [|exact Hx]. simpl. intros y Hy. qlra.
Qed.

(** X5.  On a window that is empty or inverted ([t_stop], in its own
    units, at or before [t_start]), with a generator that hands out as
    many values as asked and none of them negative, a call that passes the
    size assertion finds no event, after the bulk draw alone.  With
    [as_array] set it returns the empty array.  Without it the
    [SpikeTrain] constructor has the last word: it raises [ValueError]
    when [t_stop] is before [t_start], and hands back an empty train when
    the two are equal. *)
Theorem inverted_window_gives_no_event
  (G A : Type) (gen : A -> nat -> G -> list Q * G) (args : A)
  (mean_rate t_start t_stop : Quantity) (fuel : nat)
  (g : G) (number : Z) :
  magnitude t_stop <= magnitude (rescale_to t_start (units t_stop)) ->
  gen_nonneg gen -> gen_sized gen ->
  sample_count (expected_count mean_rate t_start t_stop) = Some number ->
  let g1 := snd (gen args (Z.to_nat number) g) in
  _homogeneous_process gen args mean_rate t_start t_stop fuel true g
  = Returns (Array [], g1) /\
  (magnitude t_stop < magnitude (rescale_to t_start (units t_stop)) ->
   _homogeneous_process gen args mean_rate t_start t_stop fuel false g
   = Raises ValueError) /\
  (magnitude t_stop == magnitude (rescale_to t_start (units t_stop)) ->
   _homogeneous_process gen args mean_rate t_start t_stop fuel false g
   = Returns (Train {| times := [];
                       train_units := units t_stop;
                       train_t_start := t_start;
                       train_t_stop := t_stop |}, g1)).
Proof.
  intros Hw Hg Hs Hn g1.
  pose proof (sample_count_some_gt_4 _ _ Hn) as Hk.
  destruct (candidates_sorted mean_rate t_start t_stop _
              (Hg args (Z.to_nat number) g)) as [Hsorted Hlo].
  pose proof (candidates_nonempty G A gen args mean_rate t_start t_stop g
                number Hs Hk) as Hne.
  assert (Hall : Forall (fun x => magnitude t_stop <= x)
                   (candidates mean_rate t_start t_stop
                      (fst (gen args (Z.to_nat number) g)))).
  { eapply Forall_impl; [|exact Hlo]. cbv beta. intros x Hx.
    exact (Qle_trans _ _ _ Hw Hx). }
  destruct (insertion_point_none_below _ _ Hall Hne) as [H0 Hlen].
  rewrite <- (searchsorted_sorted _ _ Hsorted) in H0, Hlen.
  assert (Hrun : forall as_array,
             _homogeneous_process gen args mean_rate t_start t_stop
                                  fuel as_array g
             = package t_start t_stop as_array [] g1).
  { intros as_array.
    rewrite (process_truncates G A gen args mean_rate t_start t_stop
               fuel as_array g number Hn Hlen).
    rewrite H0. reflexivity. }
  split; [apply Hrun|]. split.
  - intros Hlt. rewrite Hrun. unfold package.
    rewrite (check_time_in_range_inverted t_start t_stop [] Hlt).
    reflexivity.
  - intros Heq. rewrite Hrun. unfold package.
    rewrite (check_time_in_range_passes t_start t_stop []);
      [reflexivity | rewrite Heq; apply Qle_refl | constructor].
Qed.

Lemma inverted_window_gives_no_event_witness :
  _homogeneous_process (stream_source (fun _ => 1)) tt (quantity 1 Hz)
                       (quantity 500 ms) (quantity 0 ms) 0%nat true 0%nat
  = Returns (Array [], 5%nat) /\
  _homogeneous_process (stream_source (fun _ => 1)) tt (quantity 1 Hz)
                       (quantity 500 ms) (quantity 0 ms) 0%nat false 0%nat
  = Raises ValueError.
Proof.
  assert (H : magnitude (quantity 0 ms)
              <= magnitude (rescale_to (quantity 500 ms)
                                       (units (quantity 0 ms))))
    by (vm_compute; discriminate).
  assert (Hg : gen_nonneg (@stream_source unit (fun _ => 1)))
    by (apply stream_source_nonneg; intros _; discriminate).
  assert (Hn : sample_count (expected_count (quantity 1 Hz) (quantity 500 ms)
                                            (quantity 0 ms)) = Some 5%Z)
    by (vm_compute; reflexivity).
  destruct (inverted_window_gives_no_event nat unit
              (stream_source (fun _ => 1)) tt (quantity 1 Hz)
              (quantity 500 ms) (quantity 0 ms) 0%nat 0%nat 5%Z H Hg
              (stream_source_sized _) Hn)
    as (Htrue & Hfalse & _).
  split; [exact Htrue|]. apply Hfalse. vm_compute. reflexivity.
Defined.

(** X6.  When the buffer reaches [t_stop] (insertion index below the
    buffer length) and the intervals are not negative, no event of the
    window is lost: what the call hands to the packaging, and returns as
    it is when [as_array] is set, is exactly the candidates below
    [t_stop], in order, and the first candidate it leaves out is at or
    past [t_stop]. *)
Theorem surplus_keeps_every_event_in_window
  (G A : Type) (gen : A -> nat -> G -> list Q * G) (args : A)
  (mean_rate t_start t_stop : Quantity) (fuel : nat) (as_array : bool)
  (g : G) (number : Z) :
  gen_nonneg gen ->
  sample_count (expected_count mean_rate t_start t_stop) = Some number ->
  let spikes :=
    candidates mean_rate t_start t_stop (fst (gen args (Z.to_nat number) g)) in
  let g1 := snd (gen args (Z.to_nat number) g) in
  let i := searchsorted spikes (magnitude t_stop) in
  (i < length spikes)%nat ->
  _homogeneous_process gen args mean_rate t_start t_stop fuel as_array g
  = package t_start t_stop as_array
            (filter (fun t => Qlt_bool t (magnitude t_stop)) spikes) g1 /\
  _homogeneous_process gen args mean_rate t_start t_stop fuel true g
  = Returns (Array (filter (fun t => Qlt_bool t (magnitude t_stop)) spikes),
             g1) /\
  length (filter (fun t => Qlt_bool t (magnitude t_stop)) spikes) = i /\
  magnitude t_stop <= nth i spikes 0.
Proof.
  intros Hg Hn spikes g1 i Hi.
  destruct (candidates_sorted mean_rate t_start t_stop _
              (Hg args (Z.to_nat number) g)) as [Hsorted _].
  fold spikes in Hsorted.
  pose proof (searchsorted_sorted spikes (magnitude t_stop) Hsorted) as Ei.
  fold i in Ei.
  rewrite <- (firstn_insertion_point_filter spikes _ Hsorted), <- Ei.
  assert (Hne : i <> length spikes) by lia.
  split; [|split; [|split]].
  - exact (process_truncates G A gen args mean_rate t_start t_stop
             fuel as_array g number Hn Hne).
  - exact (process_truncates G A gen args mean_rate t_start t_stop
             fuel true g number Hn Hne).
  - rewrite length_firstn. lia.
  - apply insertion_point_nth_above; [assumption | lia].
Qed.

Lemma surplus_keeps_every_event_in_window_witness :
  _homogeneous_process (stream_source (fun _ => 3)) tt (quantity 1 Hz)
                       (quantity 0 second) (quantity 10 second)
                       0%nat true 0%nat
  = Returns (Array [3; 6; 9], 25%nat).
Proof.
  refine (proj1 (proj2 (surplus_keeps_every_event_in_window nat unit
                   (stream_source (fun _ => 3)) tt (quantity 1 Hz)
                   (quantity 0 second) (quantity 10 second)
                   0%nat false 0%nat 25%Z _ _ _))).
  - apply stream_source_nonneg. intros _. discriminate.
  - vm_compute. reflexivity.
  - vm_compute. lia.
Defined.

(** ** Events as running sums of the drawn intervals *)

Section Sums.

Variables G A : Type.
Variable gen : A -> nat -> G -> list Q * G.
Variable args : A.
Variables mean_rate t_start t_stop : Quantity.

Local Abbreviation stop := (magnitude t_stop).
Local Abbreviation start := (magnitude (rescale_to t_start (units t_stop))).
Local Abbreviation run := (extension gen args mean_rate t_stop).
Local Abbreviation singles := (single_draws gen args mean_rate t_stop).

(** A run of the loop appends the running sums of the intervals it draws
    one by one; the last of these sums is the overshoot. *)
Lemma extension_cumsum t g extra t_over g' :
  run t g extra t_over g' ->
  exists xs,
    singles g xs g' /\
    extra ++ [t_over] = t :: cumsum_from t xs /\
    length xs = length extra.
Proof.
  induction 1 as [t g Hge | t g x g1 extra t_over g' Hlt Hd Hext IH].
  - exists []. repeat split. constructor.
  - destruct IH as (xs & Hs & Hsum & Hlen).
    exists (x :: xs). split; [econstructor; eassumption|].
    split; [|simpl; lia].
    simpl. rewrite Hsum. reflexivity.
Qed.

(** What an underrun returns, read as running sums. *)
Lemma underrun_running_sums (fuel : nat) (spikes : list Q) (g : G) res g' :
  fit gen args mean_rate t_stop fuel spikes g = Returns (res, g') ->
  searchsorted spikes stop = length spikes ->
  exists init last xs t_over,
    spikes = init ++ [last] /\
    singles g xs g' /\
    res ++ [t_over] = spikes ++ cumsum_from last xs /\
    (length res + 1 = length spikes + length xs)%nat /\
    stop <= t_over.
Proof.
  intros H Hi. apply fit_returns_inv in H.
  destruct H as [(Hne & _) | (_ & init & last & x & g1 & extra & t_over
                               & Hsp & Hd & Hext & ->)];
    [contradiction|].
  destruct (extension_cumsum _ _ _ _ _ Hext) as (xs & Hs & Hsum & Hlen).
  destruct (extension_below _ _ _ _ _ _ _ _ _ _ _ Hext) as (_ & Hover & _).
  exists init, last, (x :: xs), t_over.
  split; [exact Hsp|]. split; [econstructor; eassumption|].
  split; [rewrite <- app_assoc, Hsum; reflexivity|].
  split; [rewrite length_app; simpl; lia | exact Hover].
Qed.

End Sums.

(** X7.  In an underrun the call draws single intervals until the running
    time passes [t_stop]: the times it appends, followed by the overshoot,
    are the running sums of these intervals from the last buffered time
    on, so it makes exactly one single draw more than it appends events
    (the last interval drawn gives no event). *)
Theorem underrun_appends_running_sums
  (G A : Type) (gen : A -> nat -> G -> list Q * G) (args : A)
  (mean_rate t_start t_stop : Quantity) (fuel : nat) (as_array : bool)
  (g : G) (r : result) (g' : G) (number : Z) :
  sample_count (expected_count mean_rate t_start t_stop) = Some number ->
  _homogeneous_process gen args mean_rate t_start t_stop fuel as_array g
    = Returns (r, g') ->
  let spikes :=
    candidates mean_rate t_start t_stop (fst (gen args (Z.to_nat number) g)) in
  let g1 := snd (gen args (Z.to_nat number) g) in
  searchsorted spikes (magnitude t_stop) = length spikes ->
  exists init last xs t_over,
    spikes = init ++ [last] /\
    single_draws gen args mean_rate t_stop g1 xs g' /\
    values r ++ [t_over] = spikes ++ cumsum_from last xs /\
    (length (values r) + 1 = length spikes + length xs)%nat /\
    magnitude t_stop <= t_over.
Proof.
  intros Hn H spikes g1 Hi.
  apply process_returns_inv in H.
  destruct H as (number' & res & Hn' & _ & Hfit & E & _).
  assert (number' = number) by congruence. subst number'.
  rewrite E. exact (underrun_running_sums _ _ _ _ _ _ _ _ _ _ _ Hfit Hi).
Qed.

Lemma underrun_appends_running_sums_witness :
  exists init last xs t_over,
    [0; 0; 0; 0; 0; 0; 0; 0; 0; 0; 0] = init ++ [last] /\
    single_draws (stream_source (late_ones 11)) tt (quantity 1 Hz)
                 (quantity 3 second) 11%nat xs 14%nat /\
    [0; 0; 0; 0; 0; 0; 0; 0; 0; 0; 0; 1; 2] ++ [t_over]
    = [0; 0; 0; 0; 0; 0; 0; 0; 0; 0; 0] ++ cumsum_from last xs /\
    (13 + 1 = 11 + length xs)%nat /\
    3 <= t_over.
Proof.
  assert (Hn : sample_count (expected_count (quantity 1 Hz)
                               (quantity 0 second) (quantity 3 second))
               = Some 11%Z) by (vm_compute; reflexivity).
  assert (Hrun : _homogeneous_process (stream_source (late_ones 11)) tt
                   (quantity 1 Hz) (quantity 0 second) (quantity 3 second)
                   5%nat true 0%nat
                 = Returns (Array [0; 0; 0; 0; 0; 0; 0; 0; 0; 0; 0; 1; 2],
                            14%nat)) by (vm_compute; reflexivity).
  apply (underrun_appends_running_sums _ _ _ _ _ _ _ _ _ _ _ _ _ Hn Hrun).
  vm_compute. reflexivity.
Defined.

(** ** What the rate and the units contribute *)

Lemma int_floor (x : Q) :
  int x = if Qle_bool 0 x then Qfloor x else (- Qfloor (- x))%Z.
Proof.
  destruct x as [a b]. unfold int, Qle_bool, Qfloor, Qopp. simpl.
  rewrite Z.mul_1_r.
  destruct (Z.leb_spec 0 a) as [Ha|Ha].
  - apply Z.quot_div_nonneg; lia.
  - rewrite <- (Z.opp_involutive a) at 1.
    rewrite Z.quot_opp_l by lia.
    rewrite Z.quot_div_nonneg by lia. reflexivity.
Qed.

Lemma int_Qeq (x y : Q) : x == y -> int x = int y.
Proof.
  intros H. rewrite !int_floor.
  assert (H1 : Qle_bool 0 x = Qle_bool 0 y) by (rewrite H; reflexivity).
  assert (H2 : Qfloor x = Qfloor y) by (rewrite H; reflexivity).
  assert (H3 : Qfloor (- x) = Qfloor (- y)) by (rewrite H; reflexivity).
  rewrite H1, H2, H3. reflexivity.
Qed.

Lemma factor_unit_mul (u v : Unit) :
  factor (unit_mul u v) == factor u * factor v.
Proof. reflexivity. Qed.

(** Line 24 in SI units. *)
Lemma rate_window_product_SI (mean_rate t_start t_stop : Quantity) :
  rate_window_product mean_rate t_start t_stop
  == (simplified t_stop - simplified t_start) * simplified mean_rate.
Proof.
  unfold rate_window_product, simplified, Qty_mul, Qty_sub, rescale_to.
  cbn [magnitude units]. rewrite factor_unit_mul.
  pose proof (factor_pos (units t_stop)) as Hf.
  field. intros E. rewrite E in Hf. discriminate.
Qed.

(** X11.  The mean rate does two things only: its units fix how the drawn
    intervals are rescaled, and its magnitude fixes [n], the size of the
    bulk draw.  Two rates in the same units that give the same [n] give
    the same result from the same generator and state. *)
Theorem rate_matters_through_units_and_n
  (G A : Type) (gen : A -> nat -> G -> list Q * G) (args : A)
  (rate1 rate2 t_start t_stop : Quantity) (fuel : nat) (as_array : bool)
  (g : G) :
  units rate1 = units rate2 ->
  expected_count rate1 t_start t_stop = expected_count rate2 t_start t_stop ->
  _homogeneous_process gen args rate1 t_start t_stop fuel as_array g
  = _homogeneous_process gen args rate2 t_start t_stop fuel as_array g.
Proof.
  destruct rate1 as [m1 u1], rate2 as [m2 u2]. simpl. intros -> Hn.
  unfold _homogeneous_process. rewrite Hn. reflexivity.
Qed.

Lemma rate_matters_through_units_and_n_witness :
  _homogeneous_process (stream_source (fun _ => 3)) tt (quantity 1 Hz)
                       (quantity 0 second) (quantity 10 second)
                       0%nat true 0%nat
  = _homogeneous_process (stream_source (fun _ => 3)) tt
                         (quantity (21 # 20) Hz)
                         (quantity 0 second) (quantity 10 second)
                         0%nat true 0%nat.
Proof.
  apply rate_matters_through_units_and_n; [reflexivity|].
  vm_compute. reflexivity.
Defined.

(** X12.  A gamma process of shape 1 is sampled as the Poisson process of
    the same rate: when the gamma generator with arguments [(1, 1/b)]
    hands out the values the exponential generator with argument [1/b]
    hands out, [homogeneous_gamma_process 1 b] and
    [homogeneous_poisson_process b] end alike, with equal results. *)
Theorem gamma_of_shape_one_is_poisson
  (G1 G2 : Type)
  (exponential : Quantity -> nat -> G1 -> list Q * G1)
  (gamma : Q * Quantity -> nat -> G2 -> list Q * G2)
  (R : G1 -> G2 -> Prop)
  (b t_start t_stop : Quantity) (fuel : nat) (as_array : bool)
  (g1 : G1) (g2 : G2) :
  (forall k h1 h2, R h1 h2 ->
     fst (exponential (Qty_inv b) k h1) = fst (gamma (1, Qty_inv b) k h2) /\
     R (snd (exponential (Qty_inv b) k h1))
       (snd (gamma (1, Qty_inv b) k h2))) ->
  R g1 g2 ->
  same_outcome R
    (homogeneous_poisson_process exponential fuel b t_start t_stop
                                 as_array g1)
    (homogeneous_gamma_process gamma fuel 1 b t_start t_stop as_array g2).
Proof.
  intros Hsame Hr.
  unfold homogeneous_poisson_process, homogeneous_gamma_process.
  assert (Hn : expected_count (Qty_div_scalar b 1) t_start t_stop
               = expected_count b t_start t_stop).
  { unfold expected_count. apply int_Qeq.
    rewrite !rate_window_product_SI, Qty_div_scalar_simplified.
    unfold Qdiv. setoid_replace (/ 1) with 1 by reflexivity. ring. }
  replace (_homogeneous_process gamma (1, Qty_inv b) (Qty_div_scalar b 1)
             t_start t_stop fuel as_array g2)
    with (_homogeneous_process gamma (1, Qty_inv b) b
            t_start t_stop fuel as_array g2)
    by (unfold _homogeneous_process; rewrite Hn; reflexivity).
  apply same_outcome_process; assumption.
Qed.

Lemma gamma_of_shape_one_is_poisson_witness :
  same_outcome (@eq nat)
    (homogeneous_poisson_process (stream_source (fun _ => 3 # 100)) 0%nat
       (quantity 50 Hz) (quantity 0 ms) (quantity 1000 ms) true 0%nat)
    (homogeneous_gamma_process (stream_source (fun _ => 3 # 100)) 0%nat 1
       (quantity 50 Hz) (quantity 0 ms) (quantity 1000 ms) true 0%nat).
Proof.
  apply (gamma_of_shape_one_is_poisson nat nat).
  - intros k h1 h2 ->. split; reflexivity.
  - reflexivity.
Defined.
